(** * bio2bel_mirtarbase: the population and enrichment pipelines of [Manager]

    A shallow embedding of [src/bio2bel_mirtarbase/manager.py],
    [src/bio2bel_mirtarbase/enrich.py] and the package initialiser, and the
    properties of the ingestion, resolution and serialisation code.

    Python [str] is modelled by [string], [dict] by [gmap], an exception by
    the [Raise] constructor of [result]. *)

From stdpp Require Import base strings gmap list pretty.
From Stdlib Require Import ZArith Lia.

Open Scope string_scope.
Open Scope list_scope.

(** ** Python values *)

Module Py.

Inductive exn :=
| IndexError
| KeyError
| ValueError
| AttributeError
| ImportError
| MultipleResultsFound.

Inductive result (A : Type) :=
| Ok (a : A)
| Raise (e : exn).
Arguments Ok {A} a.
Arguments Raise {A} e.

Definition bind {A B} (r : result A) (k : A → result B) : result B :=
  match r with
  | Ok a => k a
  | Raise e => Raise e
  end.

(** [for x in l: body]: an exception leaves the loop at once, with the
    state the iterations before it have built. *)
Fixpoint for_loop {S A} (body : S → A → result S) (l : list A) (s : S)
    : S * option exn :=
  match l with
  | [] => (s, None)
  | x :: l' =>
      match body s x with
      | Ok s' => for_loop body l' s'
      | Raise e => (s, Some e)
      end
  end.

(** The same loop for a body that changes the state in place, so that the
    changes made before the exception stay. *)
Fixpoint for_each {S A} (body : S → A → S * option exn) (l : list A) (s : S)
    : S * option exn :=
  match l with
  | [] => (s, None)
  | x :: l' =>
      match body s x with
      | (s', None) => for_each body l' s'
      | (s', Some e) => (s', Some e)
      end
  end.

(** [c.lower()] on one character. *)
Definition lower_ascii (c : Ascii.ascii) : Ascii.ascii :=
  let n := Ascii.nat_of_ascii c in
  if (65 <=? n)%nat && (n <=? 90)%nat then Ascii.ascii_of_nat (n + 32) else c.

(** [s.lower()] *)
Fixpoint lower (s : string) : string :=
  match s with
  | EmptyString => EmptyString
  | String c r => String (lower_ascii c) (lower r)
  end.

(** The test [if v:] on an optional string, as [d.get(k)] or a nullable
    column gives one: [None] and the empty string are false, and a true
    value is a non-empty string. *)
Definition truthy (v : option string) : option string :=
  match v with
  | Some s => if String.eqb s EmptyString then None else Some s
  | None => None
  end.

(** A cell of a numeric column of the data frame: an integer value, or NaN
    for a missing one. *)
Inductive cell :=
| Num (z : Z)
| NaN.

(** [int(x)]: [int(float('nan'))] raises [ValueError]. *)
Definition int (x : cell) : result Z :=
  match x with
  | Num z => Ok z
  | NaN => Raise ValueError
  end.

(** [str(n)] for an integer. *)
Definition str (n : Z) : string := pretty n.

End Py.

Export Py.

#[global] Instance result_bind : MBind result := fun _ _ k r => Py.bind r k.
#[global] Instance result_ret : MRet result := fun _ a => Ok a.

#[global] Instance exn_eq_dec : EqDecision exn.
Proof. solve_decision. Defined.

#[global] Instance cell_eq_dec : EqDecision cell.
Proof. solve_decision. Defined.

(** ** The entities of [models.py]

    An entity carries its primary key and the objects it refers to, as the
    ORM objects do. *)

Record Species := {
  species_id : nat;
  species_name : string;
}.

Record Mirna := {
  mirna_id : nat;
  mirna_name : string;
  mirna_species : Species;
}.

Record Target := {
  target_id : nat;
  entrez_id : string;
  target_species : Species;
  target_name : string;
  hgnc_symbol : option string;
  hgnc_id : option string;
}.

Record Interaction := {
  interaction_id : nat;
  mirtarbase_id : string;
  mirna : Mirna;
  target : Target;
}.

Record Evidence := {
  evidence_id : nat;
  experiment : string;
  support : string;
  reference : Z;
  interaction : Interaction;
}.

#[global] Instance Species_eq_dec : EqDecision Species.
Proof. solve_decision. Defined.
#[global] Instance Mirna_eq_dec : EqDecision Mirna.
Proof. solve_decision. Defined.
#[global] Instance Target_eq_dec : EqDecision Target.
Proof. solve_decision. Defined.
#[global] Instance Interaction_eq_dec : EqDecision Interaction.
Proof. solve_decision. Defined.
#[global] Instance Evidence_eq_dec : EqDecision Evidence.
Proof. solve_decision. Defined.

(** The tables of the relational store. *)
Record Store := {
  species_table : list Species;
  mirna_table : list Mirna;
  target_table : list Target;
  interaction_table : list Interaction;
  evidence_table : list Evidence;
}.

Definition empty_store : Store :=
  {| species_table := []; mirna_table := []; target_table := [];
     interaction_table := []; evidence_table := [] |}.

Definition store_app (a b : Store) : Store :=
  {| species_table := species_table a ++ species_table b;
     mirna_table := mirna_table a ++ mirna_table b;
     target_table := target_table a ++ target_table b;
     interaction_table := interaction_table a ++ interaction_table b;
     evidence_table := evidence_table a ++ evidence_table b |}.

(** [self.session]: the committed rows, and the objects added since the last
    commit, which no reader of the store sees. *)
Record Session := {
  committed : Store;
  pending : Store;
}.

(** [self.session.commit()] *)
Definition commit (s : Session) : Session :=
  {| committed := store_app (committed s) (pending s); pending := empty_store |}.

(** ** The gene-authority registry ([bio2bel_hgnc.models.HGNC]) *)

Record HGNC := {
  entrez : option string;
  symbol : string;
  identifier : Z;
}.

(** [_build_entrez_map]: a later model of the registry replaces an earlier
    one with the same [entrez]. *)
Definition _build_entrez_map (hgnc : list HGNC) : gmap string HGNC :=
  foldl (fun emap model =>
           match truthy (entrez model) with
           | Some k => <[k := model]> emap
           | None => emap
           end) ∅ hgnc.

(** ** [Manager.populate] *)

(** One tuple of [df.itertuples()]. *)
Record Row := {
  r_index : nat;
  r_mirtarbase_id : string;
  r_mirna_name : string;
  r_mirna_species : string;
  r_gene_name : string;
  r_entrez_id : cell;
  r_target_species : string;
  r_exp : string;
  r_sup_type : string;
  r_pubmed : Z;
}.

(** The local dictionaries of [populate] and the session. *)
Record PopState := {
  name_mirna : gmap string Mirna;
  target_set : gmap string Target;
  species_set : gmap string Species;
  interaction_set : gmap (string * string) Interaction;
  session : Session;
}.

Definition session_add_species (x : Species) (s : Session) : Session :=
  {| committed := committed s;
     pending := {| species_table := species_table (pending s) ++ [x];
                   mirna_table := mirna_table (pending s);
                   target_table := target_table (pending s);
                   interaction_table := interaction_table (pending s);
                   evidence_table := evidence_table (pending s) |} |}.

Definition session_add_mirna (x : Mirna) (s : Session) : Session :=
  {| committed := committed s;
     pending := {| species_table := species_table (pending s);
                   mirna_table := mirna_table (pending s) ++ [x];
                   target_table := target_table (pending s);
                   interaction_table := interaction_table (pending s);
                   evidence_table := evidence_table (pending s) |} |}.

Definition session_add_target (x : Target) (s : Session) : Session :=
  {| committed := committed s;
     pending := {| species_table := species_table (pending s);
                   mirna_table := mirna_table (pending s);
                   target_table := target_table (pending s) ++ [x];
                   interaction_table := interaction_table (pending s);
                   evidence_table := evidence_table (pending s) |} |}.

Definition session_add_interaction (x : Interaction) (s : Session) : Session :=
  {| committed := committed s;
     pending := {| species_table := species_table (pending s);
                   mirna_table := mirna_table (pending s);
                   target_table := target_table (pending s);
                   interaction_table := interaction_table (pending s) ++ [x];
                   evidence_table := evidence_table (pending s) |} |}.

Definition session_add_evidence (x : Evidence) (s : Session) : Session :=
  {| committed := committed s;
     pending := {| species_table := species_table (pending s);
                   mirna_table := mirna_table (pending s);
                   target_table := target_table (pending s);
                   interaction_table := interaction_table (pending s);
                   evidence_table := evidence_table (pending s) ++ [x] |} |}.

(** The primary key the store gives to the next row of a table. *)
Definition next_id {A} (tbl : Store → list A) (s : Session) : nat :=
  length (tbl (committed s)) + length (tbl (pending s)).

(** [species_set.get(name)], creating and adding the species when it is not
    there (lines 105-109 and 119-123). *)
Definition get_or_create_species (name : string) (st : PopState) : Species * PopState :=
  match species_set st !! name with
  | Some sp => (sp, st)
  | None =>
      let sp := {| species_id := next_id species_table (session st);
                   species_name := name |} in
      (sp, {| name_mirna := name_mirna st;
              target_set := target_set st;
              species_set := <[name := sp]> (species_set st);
              interaction_set := interaction_set st;
              session := session_add_species sp (session st) |})
  end.

(** Lines 102-115. *)
Definition get_or_create_mirna (row : Row) (st : PopState) : Mirna * PopState :=
  match name_mirna st !! r_mirna_name row with
  | Some m => (m, st)
  | None =>
      let '(sp, st) := get_or_create_species (r_mirna_species row) st in
      let m := {| mirna_id := next_id mirna_table (session st);
                  mirna_name := r_mirna_name row;
                  mirna_species := sp |} in
      (m, {| name_mirna := <[r_mirna_name row := m]> (name_mirna st);
             target_set := target_set st;
             species_set := species_set st;
             interaction_set := interaction_set st;
             session := session_add_mirna m (session st) |})
  end.

(** Lines 117-136. *)
Definition get_or_create_target (emap : gmap string HGNC) (row : Row)
    (entrez_id : string) (st : PopState) : Target * PopState :=
  match target_set st !! entrez_id with
  | Some t => (t, st)
  | None =>
      let '(sp, st) := get_or_create_species (r_target_species row) st in
      let t := match emap !! entrez_id with
               | Some g_first =>
                   {| target_id := next_id target_table (session st);
                      entrez_id := entrez_id;
                      target_species := sp;
                      target_name := r_gene_name row;
                      hgnc_symbol := Some (symbol g_first);
                      hgnc_id := Some (str (identifier g_first)) |}
               | None =>
                   {| target_id := next_id target_table (session st);
                      entrez_id := entrez_id;
                      target_species := sp;
                      target_name := r_gene_name row;
                      hgnc_symbol := None;
                      hgnc_id := None |}
               end in
      (t, {| name_mirna := name_mirna st;
             target_set := <[entrez_id := t]> (target_set st);
             species_set := species_set st;
             interaction_set := interaction_set st;
             session := session_add_target t (session st) |})
  end.

(** Lines 98-144: the interaction of the row's key, created when the key is
    new. *)
Definition get_or_create_interaction (emap : gmap string HGNC) (row : Row)
    (entrez_id : string) (st : PopState) : Interaction * PopState :=
  let interaction_key := (r_mirna_name row, entrez_id) in
  match interaction_set st !! interaction_key with
  | Some i => (i, st)
  | None =>
      let '(m, st) := get_or_create_mirna row st in
      let '(t, st) := get_or_create_target emap row entrez_id st in
      let i := {| interaction_id := next_id interaction_table (session st);
                  mirtarbase_id := r_mirtarbase_id row;
                  mirna := m;
                  target := t |} in
      (i, {| name_mirna := name_mirna st;
             target_set := target_set st;
             species_set := species_set st;
             interaction_set := <[interaction_key := i]> (interaction_set st);
             session := session_add_interaction i (session st) |})
  end.

(** The body of the loop of [populate] (lines 92-153). *)
Definition populate_row (emap : gmap string HGNC) (st : PopState) (row : Row)
    : result PopState :=
  n ← int (r_entrez_id row);
  let entrez_id := str n in
  let '(i, st) := get_or_create_interaction emap row entrez_id st in
  let new_evidence := {| evidence_id := next_id evidence_table (session st);
                         experiment := r_exp row;
                         support := r_sup_type row;
                         reference := r_pubmed row;
                         interaction := i |} in
  Ok {| name_mirna := name_mirna st;
        target_set := target_set st;
        species_set := species_set st;
        interaction_set := interaction_set st;
        session := session_add_evidence new_evidence (session st) |}.

(** The loop of lines 92-153. *)
Definition populate_loop (emap : gmap string HGNC) (st : PopState) (rows : list Row)
    : PopState * option exn :=
  for_loop (populate_row emap) rows st.

Definition init_state (s : Session) : PopState :=
  {| name_mirna := ∅; target_set := ∅; species_set := ∅; interaction_set := ∅;
     session := s |}.

(** [Manager.populate], given the models of the registry and the rows of
    the data frame: the session after the call, and the exception that ended
    it if one did. *)
Definition populate (hgnc : list HGNC) (df : list Row) (s : Session)
    : Session * option exn :=
  let emap := _build_entrez_map hgnc in
  match populate_loop emap (init_state s) df with
  | (st, None) => (commit (session st), None)
  | (st, Some e) => (session st, Some e)
  end.


(** ** The graph abstraction

    The BEL graph is a collaborator: a list of nodes, each with its attribute
    dictionary, and a list of edges, to which an edge is added without
    looking for an equal one. *)

(** The attribute dictionary of a node: the keys [FUNCTION], [NAMESPACE],
    [NAME] and [IDENTIFIER]. *)
Record NodeData := {
  d_function : string;
  d_namespace : option string;
  d_name : option string;
  d_identifier : option string;
}.

#[global] Instance NodeData_eq_dec : EqDecision NodeData.
Proof. solve_decision. Defined.

(** [pybel.constants] *)
Definition RNA : string := "RNA".
Definition MIRNA : string := "miRNA".
Definition DIRECTLY_DECREASES : string := "directlyDecreases".

(** What the code takes from outside the repository and from [models.py]:
    the node of the graph that stands for an attribute dictionary, the
    aliases of the Entrez namespace, and the BEL form of a miRNA and of a
    target. *)
Class Collaborators := {
  Node : Type;
  Node_eq_dec :: EqDecision Node;
  to_tuple : NodeData → Node;
  VALID_ENTREZ_NAMESPACES : gset string;
  MIRBASE : string;
  mirna_as_bel : Mirna → NodeData;
  target_as_bel : Target → NodeData;
}.

Section Graph.

Context {C : Collaborators}.

Record Edge := {
  e_source : Node;
  e_target : Node;
  e_relation : string;
  e_evidence : string;
  e_citation : string;
  e_annotations : gmap string string;
}.

Record BELGraph := {
  graph_name : string;
  graph_version : string;
  g_nodes : list (Node * NodeData);
  g_edges : list Edge;
  namespace_url : gmap string string;
  namespace_pattern : gmap string string;
}.

(** An end of an edge is given as a node of the graph or as an attribute
    dictionary, whose node is added when the graph does not have it. *)
Inductive endpoint :=
| ByNode (n : Node)
| ByData (d : NodeData).

Definition add_node_from_data (g : BELGraph) (d : NodeData) : BELGraph :=
  if decide (to_tuple d ∈ (g_nodes g).*1) then g
  else {| graph_name := graph_name g;
          graph_version := graph_version g;
          g_nodes := g_nodes g ++ [(to_tuple d, d)];
          g_edges := g_edges g;
          namespace_url := namespace_url g;
          namespace_pattern := namespace_pattern g |}.

Definition resolve_endpoint (g : BELGraph) (x : endpoint) : BELGraph * Node :=
  match x with
  | ByNode n => (g, n)
  | ByData d => (add_node_from_data g d, to_tuple d)
  end.

Definition add_edge (g : BELGraph) (e : Edge) : BELGraph :=
  {| graph_name := graph_name g;
     graph_version := graph_version g;
     g_nodes := g_nodes g;
     g_edges := g_edges g ++ [e];
     namespace_url := namespace_url g;
     namespace_pattern := namespace_pattern g |}.

(** [graph.add_qualified_edge(u, v, relation=, evidence=, citation=,
    annotations=)] *)
Definition add_qualified_edge (g : BELGraph) (u v : endpoint)
    (relation evidence citation : string) (annotations : gmap string string)
    : BELGraph :=
  let '(g, u) := resolve_endpoint g u in
  let '(g, v) := resolve_endpoint g v in
  add_edge g {| e_source := u; e_target := v; e_relation := relation;
                e_evidence := evidence; e_citation := citation;
                e_annotations := annotations |}.

(** ** The queries of [Manager] *)

(** [query.one_or_none()] *)
Definition one_or_none {A} (l : list A) : result (option A) :=
  match l with
  | [] => Ok None
  | [x] => Ok (Some x)
  | _ => Raise MultipleResultsFound
  end.

Definition query_target_by_entrez_id (db : Store) (entrez_id' : string)
    : result (option Target) :=
  one_or_none (filter (λ t, entrez_id t = entrez_id') (target_table db)).

Definition query_target_by_hgnc_symbol (db : Store) (hgnc_symbol' : string)
    : result (option Target) :=
  one_or_none (filter (λ t, hgnc_symbol t = Some hgnc_symbol') (target_table db)).

Definition query_target_by_hgnc_identifier (db : Store) (hgnc_id' : string)
    : result (option Target) :=
  one_or_none (filter (λ t, hgnc_id t = Some hgnc_id') (target_table db)).

(** [target.interactions] and [interaction.evidences]: the rows that refer
    to the primary key. *)
Definition interactions (db : Store) (t : Target) : list Interaction :=
  filter (λ i, target_id (target i) = target_id t) (interaction_table db).

Definition evidences (db : Store) (i : Interaction) : list Evidence :=
  filter (λ e, interaction_id (interaction e) = interaction_id i) (evidence_table db).

(** [list_evidences] and [count_evidences] *)
Definition list_evidences (db : Store) : list Evidence := evidence_table db.
Definition count_evidences (db : Store) : nat := length (evidence_table db).

(** ** [Manager.enrich_rnas] *)

Definition _enrich_rna_handle_hgnc (db : Store) (identifier name : option string)
    : result (option Target) :=
  match truthy identifier with
  | Some identifier => query_target_by_hgnc_identifier db identifier
  | None =>
      match truthy name with
      | Some name => query_target_by_hgnc_symbol db name
      | None => Raise IndexError
      end
  end.

Definition _enrich_rna_handle_entrez (db : Store) (identifier name : option string)
    : result (option Target) :=
  match truthy identifier with
  | Some identifier => query_target_by_entrez_id db identifier
  | None =>
      match truthy name with
      | Some name => query_target_by_entrez_id db name
      | None => Raise IndexError
      end
  end.

Definition mti_annotations (evidence : Evidence) : gmap string string :=
  <["SupportType" := support evidence]> (<["Experiment" := experiment evidence]> ∅).

(** Lines 323-336: one edge for every evidence of every interaction of the
    target. *)
Definition add_target_edges (db : Store) (g : BELGraph) (node : Node) (t : Target)
    : BELGraph :=
  foldl (λ g interaction,
           foldl (λ g evidence,
                    add_qualified_edge g
                      (ByData (mirna_as_bel (mirna interaction))) (ByNode node)
                      DIRECTLY_DECREASES (support evidence)
                      (str (reference evidence)) (mti_annotations evidence))
                 g (evidences db interaction))
        g (interactions db t).

(** Lines 307-317: the target of a node, [Ok None] standing for the
    [continue] of a namespace that cannot be mapped and for a query that
    finds nothing. *)
Definition enrich_rna_target (db : Store) (namespace : string)
    (identifier name : option string) : result (option Target) :=
  if decide (lower namespace = "hgnc") then
    _enrich_rna_handle_hgnc db identifier name
  else if decide (lower namespace ∈ VALID_ENTREZ_NAMESPACES) then
    _enrich_rna_handle_entrez db identifier name
  else Ok None.

(** Lines 319-336: nothing for a target that was not found. *)
Definition enrich_rna_with_target (db : Store) (g : BELGraph) (node : Node)
    (target : option Target) : BELGraph :=
  match target with
  | None => g
  | Some target => add_target_edges db g node target
  end.

(** The body of the loop of [enrich_rnas] (lines 300-336). *)
Definition enrich_rna (db : Store) (g : BELGraph) (nd : Node * NodeData)
    : result BELGraph :=
  let '(node, data) := nd in
  if decide (d_function data ≠ RNA) then Ok g
  else match d_namespace data with
       | None => Ok g
       | Some namespace =>
           target ← enrich_rna_target db namespace (d_identifier data) (d_name data);
           Ok (enrich_rna_with_target db g node target)
       end.

(** [enrich_rnas]: the loop runs over the nodes the graph has when it is
    called; the graph it returns is the one the caller is left with, also
    when an exception ends the call. *)
Definition enrich_rnas (db : Store) (graph : BELGraph) : BELGraph * option exn :=
  for_loop (enrich_rna db) (g_nodes graph) graph.

End Graph.

Section Serialisation.

Context {C : Collaborators}.

(** Modelled from the spec: [Evidence.add_to_graph] of [models.py], which
    is not among the sources. The edge of an evidence is built as in
    [enrich_rnas], from the node of the miRNA of its interaction to the
    node of the target of its interaction. *)
Definition add_to_graph (evidence : Evidence) (graph : BELGraph) : BELGraph :=
  add_qualified_edge graph
    (ByData (mirna_as_bel (mirna (interaction evidence))))
    (ByData (target_as_bel (target (interaction evidence))))
    DIRECTLY_DECREASES (support evidence) (str (reference evidence))
    (mti_annotations evidence).

(** ** [Manager.enrich_mirnas] *)

(** The body of the loop of lines 350-367, on the set [mirtarbase_names]. *)
Definition enrich_mirna (mirtarbase_names : gset string) (nd : Node * NodeData)
    : result (gset string) :=
  let '(node, data) := nd in
  if decide (d_function data ≠ MIRNA) then Ok mirtarbase_names
  else match d_namespace data with
       | None => Ok mirtarbase_names
       | Some namespace =>
           if decide (lower namespace = "mirtarbase") then
             let mirtarbase_names :=
               match d_name data with
               | Some name => mirtarbase_names ∪ {[name]}
               | None => mirtarbase_names
               end in
             Raise IndexError
           else if decide (lower namespace
                           ∈ ({["mirbase"; "hgnc"]} : gset string) ∪ VALID_ENTREZ_NAMESPACES)
           then Ok mirtarbase_names
           else Ok mirtarbase_names
       end.

(** Lines 373-377: the evidence records of the join of [Mirna],
    [Interaction] and [Evidence] whose miRNA has one of the names. *)
Definition query_evidences_by_mirna_names (db : Store) (names : gset string)
    : list Evidence :=
  filter (λ e, mirna_name (mirna (interaction e)) ∈ names) (evidence_table db).

Definition enrich_mirnas (db : Store) (graph : BELGraph) : BELGraph * option exn :=
  match for_loop enrich_mirna (g_nodes graph) ∅ with
  | (_, Some e) => (graph, Some e)
  | (mirtarbase_names, None) =>
      if decide (mirtarbase_names = ∅) then (graph, None)
      else (foldl (λ g evidence, add_to_graph evidence g) graph
              (query_evidences_by_mirna_names db mirtarbase_names), None)
  end.

(** ** [Manager.to_bel] *)

(** What [upload_bel_namespace] of the HGNC and Entrez managers returns. *)
Record Namespace := {
  keyword : string;
  url : string;
}.

Definition to_bel (hgnc_namespace entrez_namespace : Namespace) (db : Store)
    : BELGraph :=
  let graph := {| graph_name := "miRTarBase"; graph_version := "1.0.0";
                  g_nodes := []; g_edges := [];
                  namespace_url :=
                    <[keyword entrez_namespace := url entrez_namespace]>
                      (<[keyword hgnc_namespace := url hgnc_namespace]> ∅);
                  namespace_pattern := <[MIRBASE := "^.*$"]> ∅ |} in
  foldl (λ g evidence, add_to_graph evidence g) graph (list_evidences db).

End Serialisation.

(** ** [enrich.py] *)

Module Enrich.
Section Enrich.

Context {C : Collaborators}.

(** The attributes of the models that only [enrich.py] reads:
    [Mirna.serialize_to_bel] and [Interaction.evidence]. A model without
    the attribute raises [AttributeError]. *)
Variable serialize_to_bel : Mirna → result NodeData.
Variable interaction_evidence : Store → Interaction → result Evidence.

(** The body of the loop of lines 50-61. *)
Definition add_interaction_edge (db : Store) (node : Node) (g : BELGraph)
    (interaction : Interaction) : BELGraph * option exn :=
  match serialize_to_bel (mirna interaction) with
  | Raise e => (g, Some e)
  | Ok u =>
      match interaction_evidence db interaction with
      | Raise e => (g, Some e)
      | Ok evidence =>
          (add_qualified_edge g (ByData u) (ByNode node) DIRECTLY_DECREASES
             (support evidence) (str (reference evidence))
             (mti_annotations evidence), None)
      end
  end.

(** Lines 46-61, for the outcome of the query of a node. *)
Definition with_target (db : Store) (g : BELGraph) (node : Node) (data : NodeData)
    (target : result (option Target)) : BELGraph * option exn :=
  match target with
  | Raise e => (g, Some e)
  | Ok None =>
      match d_name data with
      | Some _ => (g, None)
      | None => (g, Some KeyError)
      end
  | Ok (Some target) =>
      for_each (add_interaction_edge db node) (interactions db target) g
  end.

(** The body of the loop of [enrich_rnas] (lines 20-61). *)
Definition enrich_rna (db : Store) (g : BELGraph) (nd : Node * NodeData)
    : BELGraph * option exn :=
  let '(node, data) := nd in
  if decide (d_function data ≠ RNA) then (g, None)
  else match d_namespace data with
       | None => (g, None)
       | Some namespace =>
           if decide (namespace = "HGNC") then
             with_target db g node data
               match d_identifier data, d_name data with
               | Some identifier, _ => query_target_by_hgnc_identifier db identifier
               | None, Some name => query_target_by_hgnc_symbol db name
               | None, None => Raise IndexError
               end
           else if decide (namespace ∈ ({["EGID"; "ENTREZ"]} : gset string)) then
             with_target db g node data
               match d_identifier data, d_name data with
               | Some identifier, _ => query_target_by_entrez_id db identifier
               | None, Some name => query_target_by_entrez_id db name
               | None, None => Raise IndexError
               end
           else (g, None)
       end.

Definition enrich_rnas (db : Store) (graph : BELGraph) : BELGraph * option exn :=
  for_each (enrich_rna db) (g_nodes graph) graph.

End Enrich.
End Enrich.

(** ** The modules of the package and their imports *)

Module Package.

(** The statements of a module that bind a name: [import m],
    [from m import a, b], [from m import *], and an assignment, a [def] or
    a [class]. *)
Inductive stmt :=
| Import (module : string)
| FromImport (module : string) (names : list string)
| FromImportStar (module : string)
| Bind (name : string).

(** A star import binds the names that do not start with an underscore
    (character 95). *)
Definition public (name : string) : bool :=
  match name with
  | String c _ => negb (Ascii.eqb c (Ascii.ascii_of_nat 95))
  | EmptyString => true
  end.

(** One statement, on the names the module has bound so far;
    [import_module] gives the names of a module, or the exception its
    import raises. *)
Definition exec_stmt (import_module : string → result (gset string))
    (ns : gset string) (s : stmt) : result (gset string) :=
  match s with
  | Import m => _ ← import_module m; Ok (ns ∪ {[m]})
  | FromImport m names =>
      exports ← import_module m;
      if decide (list_to_set names ⊆ exports) then Ok (ns ∪ list_to_set names)
      else Raise ImportError
  | FromImportStar m =>
      exports ← import_module m;
      Ok (ns ∪ filter (λ x, public x = true) exports)
  | Bind x => Ok (ns ∪ {[x]})
  end.

Fixpoint exec (import_module : string → result (gset string))
    (body : list stmt) (ns : gset string) : result (gset string) :=
  match body with
  | [] => Ok ns
  | s :: body' => ns' ← exec_stmt import_module ns s; exec import_module body' ns'
  end.

(** [manager.py] *)
Definition manager_py : list stmt :=
  [ Import "logging"; Import "time";
    FromImport "bio2bel" ["AbstractManager"];
    FromImport "bio2bel.manager.bel_manager" ["BELManagerMixin"];
    FromImport "bio2bel.manager.flask_manager" ["FlaskMixin"];
    Import "bio2bel_entrez";
    FromImport "bio2bel_entrez.manager" ["VALID_ENTREZ_NAMESPACES"];
    Import "bio2bel_hgnc";
    FromImport "pybel" ["BELGraph"];
    FromImport "pybel.constants"
      ["DIRECTLY_DECREASES"; "FUNCTION"; "IDENTIFIER"; "MIRNA"; "NAME";
       "NAMESPACE"; "RNA"];
    FromImport "tqdm" ["tqdm"];
    FromImport ".constants" ["MODULE_NAME"];
    FromImport ".models"
      ["Base"; "Evidence"; "Interaction"; "MIRBASE"; "Mirna"; "Species"; "Target"];
    FromImport ".parser" ["get_data"];
    Bind "log"; Bind "_build_entrez_map"; Bind "_get_name"; Bind "Manager" ].

(** [enrich.py] *)
Definition enrich_py : list stmt :=
  [ Import "logging";
    FromImportStar "pybel.constants";
    FromImport ".manager" ["Manager"];
    Bind "log"; Bind "enrich_rnas" ].

(** [__init__.py] *)
Definition init_py : list stmt :=
  [ FromImport ".enrich" ["enrich_mirnas"; "enrich_rnas"];
    FromImport ".manager" ["Manager"];
    Bind "__version__"; Bind "__title__"; Bind "__description__"; Bind "__url__";
    Bind "__author__"; Bind "__email__"; Bind "__license__"; Bind "__copyright__" ].

(** An environment gives the names of the modules that are not among the
    sources, when they are installed. *)
Definition environment := string → option (gset string).

Definition import_external (env : environment) (m : string) : result (gset string) :=
  match env m with
  | Some ns => Ok ns
  | None => Raise ImportError
  end.

Definition import_manager (env : environment) : result (gset string) :=
  exec (import_external env) manager_py ∅.

Definition import_enrich (env : environment) : result (gset string) :=
  exec (λ m, if decide (m = ".manager") then import_manager env
             else import_external env m) enrich_py ∅.

(** [import bio2bel_mirtarbase] *)
Definition import_package (env : environment) : result (gset string) :=
  exec (λ m, if decide (m = ".enrich") then import_enrich env
             else if decide (m = ".manager") then import_manager env
             else import_external env m) init_py ∅.

End Package.

(** ** The vocabulary of the properties of [populate] *)

(** The interaction key of a row, [(mirna_name, str(int(entrez_id)))], when
    the gene identifier can be read as an integer. *)
Definition row_key (row : Row) : option (string * string) :=
  match r_entrez_id row with
  | Num z => Some (r_mirna_name row, str z)
  | NaN => None
  end.

(** The key under which an interaction of the store is known. *)
Definition interaction_key (i : Interaction) : string * string :=
  (mirna_name (mirna i), entrez_id (target i)).

(** A target carries the two HGNC fields of its entry of the map, or none. *)
Definition hgnc_fields_ok (emap : gmap string HGNC) (t : Target) : Prop :=
  match emap !! entrez_id t with
  | Some g => hgnc_symbol t = Some (symbol g) ∧ hgnc_id t = Some (str (identifier g))
  | None => hgnc_symbol t = None ∧ hgnc_id t = None
  end.

(** What the three [get_or_create] steps leave alone. *)
Definition keeps_interactions (st st' : PopState) : Prop :=
  interaction_set st' = interaction_set st
  ∧ committed (session st') = committed (session st)
  ∧ interaction_table (pending (session st')) = interaction_table (pending (session st))
  ∧ evidence_table (pending (session st')) = evidence_table (pending (session st)).

Definition names_ok (st : PopState) : Prop :=
  (∀ n m, name_mirna st !! n = Some m → mirna_name m = n)
  ∧ (∀ e t, target_set st !! e = Some t → entrez_id t = e).

Definition grows_targets (emap : gmap string HGNC) (st st' : PopState) : Prop :=
  ∃ ts, target_table (pending (session st')) = target_table (pending (session st)) ++ ts
        ∧ Forall (hgnc_fields_ok emap) ts.

(** The rows of a key, the interactions known under a key and the
    evidence records attached to an interaction. *)
Definition rows_of (k : string * string) (rows : list Row) : list Row :=
  filter (λ r, row_key r = Some k) rows.

Definition interactions_of (k : string * string) (l : list Interaction)
    : list Interaction :=
  filter (λ i, interaction_key i = k) l.

Definition evidences_of (i : Interaction) (l : list Evidence) : list Evidence :=
  filter (λ e, interaction e = i) l.

(** The state of the loop after the rows [hist], in a run that started
    with the session [s0] and has added the targets [Ts], the interactions
    [Is] and the evidence records [Es]. *)
Record loop_inv (emap : gmap string HGNC) (s0 : Session) (hist : list Row)
    (st : PopState)
    (Ts : list Target) (Is : list Interaction) (Es : list Evidence) : Prop := {
  inv_committed : committed (session st) = committed s0;
  inv_targets :
    target_table (pending (session st)) = target_table (pending s0) ++ Ts;
  inv_interactions :
    interaction_table (pending (session st)) = interaction_table (pending s0) ++ Is;
  inv_evidences :
    evidence_table (pending (session st)) = evidence_table (pending s0) ++ Es;
  inv_names : names_ok st;
  inv_hgnc : Forall (hgnc_fields_ok emap) Ts;
  inv_refs : ∀ e, e ∈ Es → interaction e ∈ Is;
  inv_absent : ∀ k, interaction_set st !! k = None →
    rows_of k hist = [] ∧ interactions_of k Is = [];
  inv_present : ∀ k i, interaction_set st !! k = Some i →
    ∃ first rest, rows_of k hist = first :: rest
      ∧ interactions_of k Is = [i]
      ∧ mirtarbase_id i = r_mirtarbase_id first
      ∧ length (evidences_of i Es) = S (length rest);
  inv_count : length Es = length hist;
}.


(** ** The vocabulary of the properties of the graph functions *)

Section EdgeVocabulary.

Context {C : Collaborators}.

(** The edge of an evidence of an interaction, to a node of the graph. *)
Definition mti_edge (node : Node) (i : Interaction) (evidence : Evidence) : Edge :=
  {| e_source := to_tuple (mirna_as_bel (mirna i));
     e_target := node;
     e_relation := DIRECTLY_DECREASES;
     e_evidence := support evidence;
     e_citation := str (reference evidence);
     e_annotations :=
       <["SupportType" := support evidence]> (<["Experiment" := experiment evidence]> ∅) |}.

(** The edge of an evidence in the graph of the whole store. *)
Definition evidence_edge (evidence : Evidence) : Edge :=
  mti_edge (to_tuple (target_as_bel (target (interaction evidence))))
    (interaction evidence) evidence.

(** The edges a target gives to a node: those of the evidence records of
    its interactions. *)
Definition target_edges (db : Store) (node : Node) (t : Target) : list Edge :=
  flat_map (λ i, map (mti_edge node i) (evidences db i)) (interactions db t).

(** An iteration of [enrich_rnas] that goes on with the outcome of a
    query: the exception of the query, or the edges of the target it
    found. *)
Definition continues_with (db : Store) (g : BELGraph) (node : Node)
    (query : result (option Target)) : result BELGraph :=
  target ← query; Ok (enrich_rna_with_target db g node target).

(** A query compares a field for equality: a target it returns is a
    stored one whose field is the value asked for, and when it returns
    nothing no stored target has this value in the field; it returns nothing
    when no stored target has the value, and the target that has it when
    there is only one. *)
Definition exact_match (field : Target → option string)
    (query : Store → string → result (option Target)) (db : Store) : Prop :=
  (∀ v t, query db v = Ok (Some t) → t ∈ target_table db ∧ field t = Some v)
  ∧ (∀ v, query db v = Ok None → ∀ t, t ∈ target_table db → field t ≠ Some v)
  ∧ (∀ v, (∀ t, t ∈ target_table db → field t ≠ Some v) → query db v = Ok None)
  ∧ (∀ v t before after,
       target_table db = before ++ t :: after →
       field t = Some v →
       (∀ t', t' ∈ before ++ after → field t' ≠ Some v) →
       query db v = Ok (Some t)).

(** Two graphs with the same content: the same nodes and the same edges,
    in any order, and the same namespaces. *)
Definition same_content (g g' : BELGraph) : Prop :=
  (g_nodes g).*1 ≡ₚ (g_nodes g').*1
  ∧ g_edges g ≡ₚ g_edges g'
  ∧ namespace_url g = namespace_url g'
  ∧ namespace_pattern g = namespace_pattern g'.

End EdgeVocabulary.

(** ** Example data

    The row of the test of [populate], a registry with the HGNC entry of its
    gene, and graphs with a node for that gene. *)

Module Example.

(** Nodes as the tuples [(function, namespace, name)], and the four
    aliases of the Entrez namespace. *)
Definition collaborators : Collaborators :=
  {| Node := list string;
     to_tuple d := [d_function d; default EmptyString (d_namespace d); default EmptyString (d_name d)];
     VALID_ENTREZ_NAMESPACES := {["egid"; "eg"; "entrez"; "ncbigene"]};
     MIRBASE := "mirbase";
     mirna_as_bel m :=
       {| d_function := MIRNA; d_namespace := Some "mirbase";
          d_name := Some (mirna_name m); d_identifier := None |};
     target_as_bel t :=
       {| d_function := RNA; d_namespace := Some "ncbigene";
          d_name := Some (target_name t); d_identifier := Some (entrez_id t) |} |}.

Definition row (index : nat) (mirtarbase_id mirna_name : string) (entrez_id : cell)
    (exp : string) (pubmed : Z) : Row :=
  {| r_index := index; r_mirtarbase_id := mirtarbase_id;
     r_mirna_name := mirna_name; r_mirna_species := "Mus musculus";
     r_gene_name := "CXCR4"; r_entrez_id := entrez_id;
     r_target_species := "Homo sapiens"; r_exp := exp;
     r_sup_type := "Functional MTI"; r_pubmed := pubmed |}.

Definition df : list Row :=
  [ row 0 "MIRT000005" "mmu-miR-124-3p" (Num 7852) "Reporter assay" 18619591;
    row 1 "MIRT000006" "mmu-miR-124-3p" (Num 7852) "Western blot" 18619592;
    row 2 "MIRT000007" "hsa-miR-9-5p" (Num 7852) "qRT-PCR" 18619593 ].

Definition bad_df : list Row :=
  [ row 0 "MIRT000005" "mmu-miR-124-3p" (Num 7852) "Reporter assay" 18619591;
    row 1 "MIRT000006" "mmu-miR-124-3p" NaN "Western blot" 18619592 ].

Definition hgnc : list HGNC :=
  [ {| entrez := Some "7852"; symbol := "CXCR4"; identifier := 2561 |};
    {| entrez := None; symbol := "A1BG-AS1"; identifier := 37133 |} ].

Definition empty_session : Session :=
  {| committed := empty_store; pending := empty_store |}.

(** The store after [populate] on [df]. *)
Definition db : Store :=
  Eval vm_compute in committed (populate hgnc df empty_session).1.

(** The target of the store. *)
Definition cxcr4 : Target :=
  {| target_id := 0; entrez_id := "7852";
     target_species := {| species_id := 1; species_name := "Homo sapiens" |};
     target_name := "CXCR4"; hgnc_symbol := Some "CXCR4"; hgnc_id := Some "2561" |}.

Definition graph_of (nodes : list NodeData) : @BELGraph collaborators :=
  {| graph_name := "example"; graph_version := "0";
     g_nodes := map (λ d, (@to_tuple collaborators d, d)) nodes;
     g_edges := []; namespace_url := ∅; namespace_pattern := ∅ |}.

Definition rna (namespace : string) (name identifier : option string) : NodeData :=
  {| d_function := RNA; d_namespace := Some namespace;
     d_name := name; d_identifier := identifier |}.

Definition mirna_node (namespace : string) (name : option string) : NodeData :=
  {| d_function := MIRNA; d_namespace := Some namespace;
     d_name := name; d_identifier := None |}.

(** An environment in which every module outside the sources is installed
    and has the names the sources import, and no other. *)
Definition env : Package.environment :=
  λ m, Some (list_to_set
    [ "AbstractManager"; "BELManagerMixin"; "FlaskMixin"; "VALID_ENTREZ_NAMESPACES";
      "BELGraph"; "DIRECTLY_DECREASES"; "FUNCTION"; "IDENTIFIER"; "MIRNA"; "NAME";
      "NAMESPACE"; "RNA"; "tqdm"; "MODULE_NAME"; "Base"; "Evidence"; "Interaction";
      "MIRBASE"; "Mirna"; "Species"; "Target"; "get_data" ]).

End Example.

(** ** The counts and the other queries of [Manager] *)

Definition count_targets (db : Store) : nat := length (target_table db).
Definition count_mirnas (db : Store) : nat := length (mirna_table db).
Definition count_interactions (db : Store) : nat := length (interaction_table db).
Definition count_species (db : Store) : nat := length (species_table db).

(** [is_populated] *)
Definition is_populated (db : Store) : bool := (0 <? count_mirnas db)%nat.

(** The dictionary of [summarize]. *)
Record Summary := {
  sum_targets : nat;
  sum_mirnas : nat;
  sum_species : nat;
  sum_interactions : nat;
  sum_evidences : nat;
}.

Definition summarize (db : Store) : Summary :=
  {| sum_targets := count_targets db;
     sum_mirnas := count_mirnas db;
     sum_species := count_species db;
     sum_interactions := count_interactions db;
     sum_evidences := count_evidences db |}.

Definition query_mirna_by_mirtarbase_identifier (db : Store) (mirtarbase_id' : string)
    : result (option Mirna) :=
  match one_or_none (filter (λ i, mirtarbase_id i = mirtarbase_id')
                            (interaction_table db)) with
  | Ok None => Ok None
  | Ok (Some interaction) => Ok (Some (mirna interaction))
  | Raise e => Raise e
  end.

Definition query_mirna_by_mirtarbase_name (db : Store) (name : string)
    : result (option Mirna) :=
  one_or_none (filter (λ m, mirna_name m = name) (mirna_table db)).

(** [_get_name] *)
Definition _get_name (data : NodeData) : option string :=
  match d_name data with
  | Some name => Some name
  | None => d_identifier data
  end.

(** A session on a store without rows. *)
Definition new_session : Session :=
  {| committed := empty_store; pending := empty_store |}.

(** ** The vocabulary of the dictionaries of [populate] *)

(** A dictionary of [populate] and the entities added so far: the entities
    with a key are the entry of the dictionary for the key, and so there is
    at most one. *)
Definition cache_ok `{Countable K} {A} (key : A → K) (cache : gmap K A) (l : list A)
    : Prop :=
  ∀ k, filter (λ x, key x = k) l = option_list (cache !! k).

(** [str(int(entrez_id))] of a row. *)
Definition row_gene (row : Row) : option string := snd <$> row_key row.

(** The dictionaries and the session in the loop of [populate], in a run
    that started with the session [s0] and has added the entities of the
    five lists. *)
Record tables_inv (s0 : Session) (st : PopState) (Ss : list Species)
    (Ms : list Mirna) (Ts : list Target) (Is : list Interaction)
    (Es : list Evidence) : Prop := {
  ti_committed : committed (session st) = committed s0;
  ti_species : species_table (pending (session st)) = species_table (pending s0) ++ Ss;
  ti_mirnas : mirna_table (pending (session st)) = mirna_table (pending s0) ++ Ms;
  ti_targets : target_table (pending (session st)) = target_table (pending s0) ++ Ts;
  ti_interactions :
    interaction_table (pending (session st)) = interaction_table (pending s0) ++ Is;
  ti_evidences :
    evidence_table (pending (session st)) = evidence_table (pending s0) ++ Es;
  ti_species_cache : cache_ok species_name (species_set st) Ss;
  ti_mirna_cache : cache_ok mirna_name (name_mirna st) Ms;
  ti_target_cache : cache_ok entrez_id (target_set st) Ts;
  ti_interaction_cache : cache_ok interaction_key (interaction_set st) Is;
  ti_mirna_species : ∀ m, m ∈ Ms → mirna_species m ∈ Ss;
  ti_target_species : ∀ t, t ∈ Ts → target_species t ∈ Ss;
  ti_parts : ∀ i, i ∈ Is → mirna i ∈ Ms ∧ target i ∈ Ts;
  ti_refs : ∀ ev, ev ∈ Es → interaction ev ∈ Is;
  ti_target_ids : target_id <$> Ts = seq (next_id target_table s0) (length Ts);
  ti_interaction_ids :
    interaction_id <$> Is = seq (next_id interaction_table s0) (length Is);
}.

(** An evidence and the row it was made from. *)
Definition evidence_of_row (ev : Evidence) (row : Row) : Prop :=
  experiment ev = r_exp row
  ∧ support ev = r_sup_type row
  ∧ reference ev = r_pubmed row
  ∧ row_key row = Some (interaction_key (interaction ev)).

(** The rows [hist] the loop has gone through. *)
Record rows_inv (hist : list Row) (st : PopState) (Ms : list Mirna)
    (Ts : list Target) (Is : list Interaction) (Es : list Evidence) : Prop := {
  ri_rows :
    Forall (λ row, ∃ k, row_key row = Some k ∧ is_Some (interaction_set st !! k)) hist;
  ri_evidences : Forall2 evidence_of_row Es hist;
  ri_targets : ∀ t, t ∈ Ts →
    ∃ first rest,
      filter (λ r, row_gene r = Some (entrez_id t)) hist = first :: rest
      ∧ target_name t = r_gene_name first
      ∧ species_name (target_species t) = r_target_species first;
  ri_mirnas : ∀ m, m ∈ Ms →
    ∃ first rest,
      filter (λ r, r_mirna_name r = mirna_name m ∧ is_Some (row_key r)) hist
      = first :: rest
      ∧ species_name (mirna_species m) = r_mirna_species first;
  ri_interactions : ∀ i, i ∈ Is →
    ∃ row, row ∈ hist ∧ row_key row = Some (interaction_key i);
}.

(** ** The vocabulary of the exceptions of [enrich_rnas] *)

Section EnrichVocabulary.

Context {C : Collaborators}.

(** A node for which [enrich_rnas] asks the store: an RNA with a namespace
    that is HGNC or one of the Entrez aliases in some letter case. *)
Definition recognized (nd : Node * NodeData) : Prop :=
  d_function nd.2 = RNA
  ∧ ∃ namespace, d_namespace nd.2 = Some namespace
                 ∧ (lower namespace = lower "HGNC"
                    ∨ lower namespace ∈ VALID_ENTREZ_NAMESPACES).

(** A recognized node with neither an identifier nor a name. *)
Definition unresolvable (nd : Node * NodeData) : Prop :=
  recognized nd
  ∧ truthy (d_identifier nd.2) = None
  ∧ truthy (d_name nd.2) = None.

(** No two targets of the store have the same value in a column. *)
Definition unique_column (field : Target → option string) (db : Store) : Prop :=
  ∀ v, (length (filter (λ t, field t = Some v) (target_table db)) ≤ 1)%nat.

(** The three columns by which [enrich_rnas] asks the store. *)
Definition unique_columns (db : Store) : Prop :=
  unique_column (λ t, Some (entrez_id t)) db
  ∧ unique_column hgnc_id db
  ∧ unique_column hgnc_symbol db.

(** What a graph has kept of another and what it has more: the new nodes
    are miRNAs of interactions of the store, and the new edges end in
    recognized nodes of the first graph. *)
Definition extends (db : Store) (g0 g g' : BELGraph) : Prop :=
  graph_name g' = graph_name g
  ∧ graph_version g' = graph_version g
  ∧ namespace_url g' = namespace_url g
  ∧ namespace_pattern g' = namespace_pattern g
  ∧ ∃ new_nodes new_edges,
      g_nodes g' = g_nodes g ++ new_nodes
      ∧ g_edges g' = g_edges g ++ new_edges
      ∧ Forall (λ nd, ∃ i, i ∈ interaction_table db
                           ∧ nd = (to_tuple (mirna_as_bel (mirna i)),
                                   mirna_as_bel (mirna i))) new_nodes
      ∧ Forall (λ e, ∃ data, (e_target e, data) ∈ g_nodes g0
                             ∧ recognized (e_target e, data)
                             ∧ e_relation e = DIRECTLY_DECREASES) new_edges.

(** A node for which [enrich_rnas] of [enrich.py] asks the store: an RNA
    whose namespace is "HGNC", "EGID" or "ENTREZ" in these letters. *)
Definition enrich_py_recognized (nd : Node * NodeData) : Prop :=
  d_function nd.2 = RNA
  ∧ (d_namespace nd.2 = Some "HGNC"
     ∨ d_namespace nd.2 = Some "EGID"
     ∨ d_namespace nd.2 = Some "ENTREZ").

(** What a graph has kept of another and what it has more, for [enrich.py]:
    the new edges end in nodes of the first graph that it recognizes. *)
Definition enrich_py_extends (g0 g g' : BELGraph) : Prop :=
  graph_name g' = graph_name g
  ∧ graph_version g' = graph_version g
  ∧ namespace_url g' = namespace_url g
  ∧ namespace_pattern g' = namespace_pattern g
  ∧ ∃ new_nodes new_edges,
      g_nodes g' = g_nodes g ++ new_nodes
      ∧ g_edges g' = g_edges g ++ new_edges
      ∧ Forall (λ e, ∃ data, (e_target e, data) ∈ g_nodes g0
                             ∧ enrich_py_recognized (e_target e, data)
                             ∧ e_relation e = DIRECTLY_DECREASES) new_edges.

End EnrichVocabulary.

(** * Properties *)

(** ** The invariant of the loop of [populate] *)

Section PopulateInvariant.

Variable emap : gmap string HGNC.

Local Abbreviation grows_targets := (grows_targets emap).
Local Abbreviation loop_inv := (loop_inv emap).

Lemma grows_targets_refl st : grows_targets st st.
Proof. exists []. by rewrite app_nil_r. Qed.

Lemma grows_targets_trans st1 st2 st3 :
  grows_targets st1 st2 → grows_targets st2 st3 → grows_targets st1 st3.
Proof.
  intros (ts & E1 & F1) (ts' & E2 & F2). exists (ts ++ ts'). split.
  - by rewrite E2, E1, app_assoc.
  - by apply Forall_app.
Qed.

Lemma species_step n st sp st' :
  get_or_create_species n st = (sp, st') →
  keeps_interactions st st'
  ∧ name_mirna st' = name_mirna st ∧ target_set st' = target_set st
  ∧ target_table (pending (session st')) = target_table (pending (session st)).
Proof.
  unfold get_or_create_species, keeps_interactions.
  destruct (species_set st !! n); intros [= <- <-]; simpl; auto 10.
Qed.

Lemma mirna_step row st m st' :
  get_or_create_mirna row st = (m, st') →
  names_ok st →
  keeps_interactions st st' ∧ names_ok st' ∧ grows_targets st st'
  ∧ name_mirna st' !! r_mirna_name row = Some m.
Proof.
  unfold get_or_create_mirna. intros H [Hm Ht].
  destruct (name_mirna st !! r_mirna_name row) as [m0|] eqn:E.
  - injection H as <- <-. repeat split; auto using grows_targets_refl.
  - destruct (get_or_create_species (r_mirna_species row) st) as [sp st1] eqn:Es.
    apply species_step in Es as ((Ki & Kc & Kt & Ke) & En & Et & Ett).
    injection H as <- <-. unfold keeps_interactions, names_ok, grows_targets; simpl.
    repeat split; auto.
    + intros n m. rewrite En. intros L.
      apply lookup_insert_Some in L as [[<- <-]|[_ L]]; [done | eauto].
    + rewrite Et. done.
    + exists []. by rewrite Ett, app_nil_r.
    + apply lookup_insert_eq.
Qed.

Lemma target_step row e st t st' :
  get_or_create_target emap row e st = (t, st') →
  names_ok st →
  keeps_interactions st st' ∧ names_ok st' ∧ grows_targets st st'
  ∧ name_mirna st' = name_mirna st ∧ entrez_id t = e.
Proof.
  unfold get_or_create_target. intros H [Hm Ht].
  destruct (target_set st !! e) as [t0|] eqn:E.
  - injection H as <- <-. repeat split; eauto using grows_targets_refl.
  - destruct (get_or_create_species (r_target_species row) st) as [sp st1] eqn:Es.
    apply species_step in Es as ((Ki & Kc & Kt & Ke) & En & Et & Ett).
    injection H as <- <-. unfold keeps_interactions, names_ok, grows_targets; simpl.
    assert (Hid : ∀ g, entrez_id
      match g with
      | Some g_first =>
          {| target_id := next_id target_table (session st1); entrez_id := e;
             target_species := sp; target_name := r_gene_name row;
             hgnc_symbol := Some (symbol g_first);
             hgnc_id := Some (str (identifier g_first)) |}
      | None =>
          {| target_id := next_id target_table (session st1); entrez_id := e;
             target_species := sp; target_name := r_gene_name row;
             hgnc_symbol := None; hgnc_id := None |}
      end = e) by (by intros [g|]).
    repeat split; auto.
    + rewrite En. done.
    + intros e' t'. rewrite Et. intros L.
      apply lookup_insert_Some in L as [[<- <-]|[_ L]]; [apply Hid | eauto].
    + eexists [_]. rewrite Ett. split; [reflexivity|].
      constructor; [|constructor]. unfold hgnc_fields_ok. rewrite Hid.
      destruct (emap !! e); simpl; auto.
Qed.

Lemma interaction_step row e st i st' :
  get_or_create_interaction emap row e st = (i, st') →
  names_ok st →
  (interaction_set st !! (r_mirna_name row, e) = Some i ∧ st' = st)
  ∨ (interaction_set st !! (r_mirna_name row, e) = None
     ∧ interaction_set st' = <[(r_mirna_name row, e) := i]> (interaction_set st)
     ∧ committed (session st') = committed (session st)
     ∧ interaction_table (pending (session st'))
       = interaction_table (pending (session st)) ++ [i]
     ∧ evidence_table (pending (session st')) = evidence_table (pending (session st))
     ∧ names_ok st' ∧ grows_targets st st'
     ∧ interaction_key i = (r_mirna_name row, e)
     ∧ mirtarbase_id i = r_mirtarbase_id row).
Proof.
  unfold get_or_create_interaction. intros H Hn.
  destruct (interaction_set st !! (r_mirna_name row, e)) as [i0|] eqn:E.
  { left. by injection H as <- <-. }
  right. split; [done|].
  destruct (get_or_create_mirna row st) as [m st1] eqn:Em.
  apply mirna_step in Em as ((Ki & Kc & Kt & Ke) & Hn1 & G1 & Lm); [|done].
  destruct (get_or_create_target emap row e st1) as [t st2] eqn:Et.
  apply target_step in Et as ((Ki2 & Kc2 & Kt2 & Ke2) & Hn2 & G2 & En2 & Ee); [|done].
  injection H as <- <-. simpl.
  rewrite Ki2, Ki, Kc2, Kc, Kt2, Kt, Ke2, Ke.
  repeat split; try done.
  - apply Hn2.
  - apply Hn2.
  - destruct (grows_targets_trans _ _ _ G1 G2) as (ts & Ets & Fts).
    exists ts. simpl. done.
  - unfold interaction_key. simpl. f_equal; [|done].
    destruct Hn1 as [Hm1 _]. by apply Hm1.
Qed.

Lemma loop_inv_init s0 : loop_inv s0 [] (init_state s0) [] [] [].
Proof.
  split; simpl; try done; try (by rewrite app_nil_r).
  intros e He. by apply elem_of_nil in He.
Qed.

Lemma interactions_of_elem k i l : interactions_of k l = [i] → i ∈ l ∧ interaction_key i = k.
Proof.
  intros E. assert (Hi : i ∈ interactions_of k l) by (rewrite E; apply list_elem_of_here).
  unfold interactions_of in Hi. by apply list_elem_of_filter in Hi as [? ?].
Qed.

Lemma evidences_of_snoc i l e :
  evidences_of i (l ++ [e])
  = evidences_of i l ++ (if decide (interaction e = i) then [e] else []).
Proof.
  unfold evidences_of. rewrite filter_app. f_equal.
Qed.

Lemma rows_of_snoc k hist row :
  rows_of k (hist ++ [row])
  = rows_of k hist ++ (if decide (row_key row = Some k) then [row] else []).
Proof. unfold rows_of. rewrite filter_app. f_equal. Qed.

Lemma interactions_of_snoc k l i :
  interactions_of k (l ++ [i])
  = interactions_of k l ++ (if decide (interaction_key i = k) then [i] else []).
Proof. unfold interactions_of. rewrite filter_app. f_equal. Qed.

Lemma populate_row_inv s0 hist st Ts Is Es row st' :
  loop_inv s0 hist st Ts Is Es →
  populate_row emap st row = Ok st' →
  ∃ Ts' Is' Es', loop_inv s0 (hist ++ [row]) st' Ts' Is' Es'.
Proof.
  intros I H. unfold populate_row in H.
  destruct (r_entrez_id row) as [z|] eqn:Ez; [|discriminate]. simpl in H.
  destruct (get_or_create_interaction emap row (str z) st) as [i st1] eqn:Ei.
  injection H as <-.
  assert (Hk : row_key row = Some (r_mirna_name row, str z))
    by (unfold row_key; by rewrite Ez).
  remember (r_mirna_name row, str z) as k0 eqn:Ek0.
  set (ev := {| evidence_id := next_id evidence_table (session st1);
                experiment := r_exp row; support := r_sup_type row;
                reference := r_pubmed row; interaction := i |}).
  destruct I as [Ic It Ii Ie In Ih Ir Ia Ip Il].
  apply interaction_step in Ei as
    [[L ->]|(L & Eset & Ec & Eit & Eet & Hn & (ts & Ets & Fts) & Hki & Hmid)];
    [| |done]; rewrite <- Ek0 in *; clear Ek0.
  - (* the key is known *)
    exists Ts, Is, (Es ++ [ev]).
    destruct (Ip _ _ L) as (first & rest & Hrows & Hints & Hmid & Hlen).
    split; simpl; try done.
    + by rewrite Ie, app_assoc.
    + intros e He. apply elem_of_app in He as [He|He]; [auto|].
      apply list_elem_of_singleton in He as ->. simpl.
      by apply interactions_of_elem in Hints as [? _].
    + intros k Lk. rewrite rows_of_snoc. destruct (Ia _ Lk) as [-> ->].
      split; [|done]. case_decide as D; [|done].
      rewrite Hk in D. congruence.
    + intros k i' Lk. destruct (Ip _ _ Lk) as (f & r & Hr & Hi & Hm & Hl).
      rewrite rows_of_snoc, evidences_of_snoc, Hr. simpl.
      case_decide as D.
      * rewrite Hk in D. injection D as <-.
        assert (i' = i) as -> by congruence.
        exists f, (r ++ [row]). rewrite decide_True by done.
        repeat split; try done. rewrite !length_app. simpl. lia.
      * exists f, r. rewrite app_nil_r.
        assert (i ≠ i') as Hne.
        { intros ->. apply D. rewrite Hk. f_equal.
          apply interactions_of_elem in Hints as [_ <-].
          by apply interactions_of_elem in Hi as [_ <-]. }
        rewrite decide_False by done. rewrite app_nil_r. done.
    + rewrite !length_app. simpl. lia.
  - (* the key is new *)
    exists (Ts ++ ts), (Is ++ [i]), (Es ++ [ev]).
    destruct (Ia _ L) as [Hrows Hints].
    split; simpl; try done.
    + congruence.
    + by rewrite Ets, It, app_assoc.
    + by rewrite Eit, Ii, app_assoc.
    + by rewrite Eet, Ie, app_assoc.
    + by apply Forall_app.
    + intros e He. apply elem_of_app in He as [He|He].
      * apply elem_of_app. left. auto.
      * apply list_elem_of_singleton in He as ->. simpl.
        apply elem_of_app. right. apply list_elem_of_here.
    + intros k Lk. rewrite Eset in Lk.
      apply lookup_insert_None in Lk as [Lk Hne].
      destruct (Ia _ Lk) as [Hr Hi].
      rewrite rows_of_snoc, interactions_of_snoc, Hr, Hi. simpl.
      rewrite !decide_False; [done| |]; congruence.
    + intros k i' Lk. rewrite Eset in Lk.
      apply lookup_insert_Some in Lk as [[<- <-]|[Hne Lk]].
      * exists row, []. rewrite rows_of_snoc, interactions_of_snoc, evidences_of_snoc.
        rewrite Hrows, Hints. simpl.
        rewrite !decide_True by done. repeat split; try done.
        assert (evidences_of i Es = []) as ->; [|done].
        destruct (evidences_of i Es) as [|e l] eqn:Ee; [done|].
        assert (He : e ∈ evidences_of i Es) by (rewrite Ee; apply list_elem_of_here).
        unfold evidences_of in He. apply list_elem_of_filter in He as [Heq He].
        apply Ir in He. rewrite Heq in He.
        assert (i ∈ interactions_of k0 Is) as Hin
          by (unfold interactions_of; by apply list_elem_of_filter).
        rewrite Hints in Hin. by apply elem_of_nil in Hin.
      * destruct (Ip _ _ Lk) as (f & r & Hr & Hi & Hm & Hl).
        exists f, r.
        rewrite rows_of_snoc, interactions_of_snoc, evidences_of_snoc, Hr, Hi. simpl.
        assert (i ≠ i') as Hne'.
        { intros ->. apply Hne. rewrite <- Hki.
          by apply interactions_of_elem in Hi as [_ <-]. }
        rewrite !decide_False; [by rewrite !app_nil_r| done | | ].
        -- rewrite Hki. done.
        -- rewrite Hk. congruence.
    + rewrite !length_app. simpl. lia.
Qed.

End PopulateInvariant.

Lemma populate_row_ok emap st row :
  is_Some (row_key row) → ∃ st', populate_row emap st row = Ok st'.
Proof.
  unfold row_key, populate_row. destruct (r_entrez_id row); intros [k Hk]; [|done].
  simpl. destruct (get_or_create_interaction _ _ _ _). eauto.
Qed.

Lemma populate_row_raise emap st row :
  row_key row = None → populate_row emap st row = Raise ValueError.
Proof. unfold row_key, populate_row. by destruct (r_entrez_id row). Qed.

Lemma populate_loop_inv emap s0 rows : ∀ hist st Ts Is Es st' e,
  loop_inv emap s0 hist st Ts Is Es →
  populate_loop emap st rows = (st', e) →
  ∃ done_rows Ts' Is' Es',
    loop_inv emap s0 (hist ++ done_rows) st' Ts' Is' Es'
    ∧ (e = None → done_rows = rows).
Proof.
  unfold populate_loop.
  induction rows as [|row rows IH]; intros hist st Ts Is Es st' e I H; simpl in H.
  - injection H as <- <-. exists [], Ts, Is, Es. by rewrite app_nil_r.
  - destruct (populate_row emap st row) as [st1|e1] eqn:Er.
    + destruct (populate_row_inv _ _ _ _ _ _ _ _ _ I Er) as (Ts1 & Is1 & Es1 & I1).
      destruct (IH _ _ _ _ _ _ _ I1 H) as (d & Ts' & Is' & Es' & I' & Hd).
      exists (row :: d), Ts', Is', Es'. split.
      * by rewrite <- app_assoc in I'.
      * intros He. by rewrite Hd.
    + injection H as <- <-. exists [], Ts, Is, Es. by rewrite app_nil_r.
Qed.

Lemma populate_loop_ok emap rows : ∀ st,
  Forall (λ r, is_Some (row_key r)) rows →
  ∃ st', populate_loop emap st rows = (st', None).
Proof.
  unfold populate_loop.
  induction rows as [|row rows IH]; intros st F; simpl; [eauto|].
  apply Forall_cons in F as [Hr F].
  destruct (populate_row_ok emap st row Hr) as [st1 ->]. auto.
Qed.

(** The key of the map built by [_build_entrez_map] is the [entrez] field of
    a model of the registry, and the entry is the last model with it. *)
Lemma build_entrez_map_lookup hgnc k :
  _build_entrez_map hgnc !! k
  = last (filter (λ model, entrez model = Some k ∧ k ≠ EmptyString) hgnc).
Proof.
  unfold _build_entrez_map.
  induction hgnc as [|model hgnc IH] using rev_ind; [done|].
  rewrite foldl_app, filter_app, (filter_cons _ model []), filter_nil. simpl.
  destruct (entrez model) as [k'|] eqn:Ee; simpl.
  - destruct (String.eqb_spec k' EmptyString) as [->|Hne]; simpl.
    + rewrite IH, decide_False, app_nil_r; [done|].
      intros [[= <-] ?]. done.
    + destruct (decide (k' = k)) as [->|Hk].
      * rewrite lookup_insert_eq, decide_True by done. by rewrite last_snoc.
      * rewrite lookup_insert_ne, IH, decide_False, app_nil_r; [done| |done].
        intros [[= ?] ?]. done.
  - by rewrite IH, app_nil_r.
Qed.

Lemma populate_loop_raises emap rows : ∀ st,
  Exists (λ r, row_key r = None) rows →
  ∃ st', populate_loop emap st rows = (st', Some ValueError).
Proof.
  unfold populate_loop.
  induction rows as [|row rows IH]; intros st E; [by apply Exists_nil in E|].
  simpl. destruct (row_key row) as [k|] eqn:Ek.
  - destruct (populate_row_ok emap st row) as [st1 ->]; [by rewrite Ek|].
    apply Exists_cons in E as [E|E]; [congruence | auto].
  - rewrite populate_row_raise by done. eauto.
Qed.

Lemma row_key_None row :
  row_key row = None ↔ int (r_entrez_id row) = Raise ValueError.
Proof. unfold row_key. by destruct (r_entrez_id row). Qed.

(** ** [populate]: one interaction for a key *)

(** C1. When every row has a gene identifier that can be read as an
    integer, [populate] ends without an exception and commits a list of new
    interactions and a list of new evidence records such that, for every
    interaction key [(mirna_name, str(int(entrez_id)))]: the rows with this
    key, if there are any, give exactly one interaction with this key, whose
    [mirtarbase_id] is that of the first of these rows and which has as many
    evidence records as there are such rows; a key of no row gives no
    interaction. *)
Theorem populate_one_interaction_per_key hgnc df s :
  Forall (λ row, is_Some (row_key row)) df →
  ∃ s' Is Es,
    populate hgnc df s = (s', None)
    ∧ interaction_table (committed s')
      = interaction_table (committed s) ++ interaction_table (pending s) ++ Is
    ∧ evidence_table (committed s')
      = evidence_table (committed s) ++ evidence_table (pending s) ++ Es
    ∧ length Es = length df
    ∧ ∀ k,
        match rows_of k df with
        | [] => interactions_of k Is = []
        | first :: rest =>
            ∃ i, interactions_of k Is = [i]
                 ∧ mirtarbase_id i = r_mirtarbase_id first
                 ∧ length (evidences_of i Es) = length (first :: rest)
        end.
Proof.
  intros F. unfold populate.
  destruct (populate_loop_ok (_build_entrez_map hgnc) df (init_state s) F) as [st E].
  rewrite E.
  destruct (populate_loop_inv _ s df [] _ [] [] [] _ _ (loop_inv_init _ s) E)
    as (d & Ts & Is & Es & I & Hd).
  rewrite Hd in I by done. simpl in I.
  destruct I as [Ic It Ii Ie In Ih Ir Ia Ip Il].
  exists (commit (session st)), Is, Es. simpl.
  rewrite Ic, Ii, Ie. repeat split; try done.
  intros k. destruct (interaction_set st !! k) as [i|] eqn:L.
  - destruct (Ip _ _ L) as (first & rest & -> & Hi & Hm & Hl). eauto.
  - by destruct (Ia _ L) as [-> ->].
Qed.

(** ** [populate]: a gene identifier that is not an integer *)

(** C5. When [int] raises on the gene identifier of some row, [populate]
    ends with that exception and the committed rows of the store are the
    ones it had before the call. *)
Theorem populate_aborts_on_bad_gene_id hgnc df s :
  Exists (λ row, int (r_entrez_id row) = Raise ValueError) df →
  ∃ s', populate hgnc df s = (s', Some ValueError) ∧ committed s' = committed s.
Proof.
  intros E. unfold populate.
  assert (E' : Exists (λ r, row_key r = None) df).
  { eapply Exists_impl; [exact E|]. intros row. apply row_key_None. }
  destruct (populate_loop_raises (_build_entrez_map hgnc) df (init_state s) E')
    as [st Hl].
  rewrite Hl. exists (session st). split; [done|].
  destruct (populate_loop_inv _ s df [] _ [] [] [] _ _ (loop_inv_init _ s) Hl)
    as (d & Ts & Is & Es & I & _).
  apply I.
Qed.

(** ** [populate]: the HGNC fields of a target *)

(** C6. Whether [populate] ends with an exception or not, every target it
    has added to the session has, when the map built from the registry has
    an entry for its [entrez_id], the symbol of the entry as [hgnc_symbol]
    and the identifier of the entry, as a string, as [hgnc_id], and has
    neither field otherwise; so [hgnc_symbol] is set exactly when [hgnc_id]
    is. The entry of the map for a key is the last model of the registry
    whose [entrez] is this key. *)
Theorem populate_targets_hgnc_fields hgnc df s :
  ∃ Ts,
    target_table (store_app (committed (populate hgnc df s).1)
                            (pending (populate hgnc df s).1))
    = target_table (committed s) ++ target_table (pending s) ++ Ts
    ∧ Forall (hgnc_fields_ok (_build_entrez_map hgnc)) Ts
    ∧ Forall (λ t, is_Some (hgnc_symbol t) ↔ is_Some (hgnc_id t)) Ts
    ∧ ∀ k, _build_entrez_map hgnc !! k
           = last (filter (λ model, entrez model = Some k ∧ k ≠ EmptyString) hgnc).
Proof.
  unfold populate.
  destruct (populate_loop (_build_entrez_map hgnc) (init_state s) df) as [st e] eqn:E.
  destruct (populate_loop_inv _ s df [] _ [] [] [] _ _ (loop_inv_init _ s) E)
    as (d & Ts & Is & Es & I & _).
  destruct I as [Ic It Ii Ie In Ih Ir Ia Ip Il].
  exists Ts. split_and!.
  - destruct e; simpl; rewrite Ic, It; [done|]. by rewrite app_nil_r.
  - done.
  - eapply Forall_impl; [exact Ih|]. intros t. unfold hgnc_fields_ok.
    destruct (_build_entrez_map hgnc !! entrez_id t); intros [-> ->];
      split; intros [x Hx]; done || eauto.
  - apply build_entrez_map_lookup.
Qed.

(** ** The graph *)

Section GraphLemmas.

Context {C : Collaborators}.

Lemma add_node_from_data_edges g d : g_edges (add_node_from_data g d) = g_edges g.
Proof. unfold add_node_from_data. by case_decide. Qed.

Lemma add_node_from_data_keys g d :
  (g_nodes (add_node_from_data g d)).*1
  = (g_nodes g).*1 ++ (if decide (to_tuple d ∈ (g_nodes g).*1) then [] else [to_tuple d]).
Proof.
  unfold add_node_from_data. case_decide; simpl; [by rewrite app_nil_r|].
  by rewrite fmap_app.
Qed.

Lemma add_node_from_data_urls g d :
  namespace_url (add_node_from_data g d) = namespace_url g
  ∧ namespace_pattern (add_node_from_data g d) = namespace_pattern g.
Proof. unfold add_node_from_data. by case_decide. Qed.

Lemma add_qualified_edge_to_node g u node rel ev cit ann :
  g_edges (add_qualified_edge g (ByData u) (ByNode node) rel ev cit ann)
  = g_edges g ++ [{| e_source := to_tuple u; e_target := node; e_relation := rel;
                     e_evidence := ev; e_citation := cit; e_annotations := ann |}].
Proof. unfold add_qualified_edge. simpl. by rewrite add_node_from_data_edges. Qed.

Lemma add_target_edges_edges db g node t :
  g_edges (add_target_edges db g node t) = g_edges g ++ target_edges db node t.
Proof.
  unfold add_target_edges, target_edges.
  generalize (interactions db t) as ints. intros ints. revert g.
  induction ints as [|i ints IH]; intros g; simpl; [by rewrite app_nil_r|].
  rewrite IH, app_assoc. f_equal.
  generalize (evidences db i) as evs. intros evs. revert g.
  induction evs as [|ev evs IHe]; intros g; simpl; [by rewrite app_nil_r|].
  rewrite IHe, add_qualified_edge_to_node. by rewrite <- app_assoc.
Qed.

Lemma target_edges_target db node t :
  Forall (λ e, e_target e = node) (target_edges db node t).
Proof.
  unfold target_edges. apply Forall_flat_map, Forall_forall. intros i _.
  apply Forall_fmap, Forall_forall. by intros ev _.
Qed.

Lemma target_edges_length db node t :
  length (target_edges db node t)
  = sum_list (map (λ i, length (evidences db i)) (interactions db t)).
Proof.
  unfold target_edges. induction (interactions db t) as [|i ints IH]; simpl; [done|].
  by rewrite length_app, length_map, IH.
Qed.

(** What one iteration of [enrich_rnas] adds. *)
Lemma enrich_rna_edges db g node data g' :
  enrich_rna db g (node, data) = Ok g' →
  ∃ new, g_edges g' = g_edges g ++ new ∧ Forall (λ e, e_target e = node) new.
Proof.
  unfold enrich_rna. case_decide; [intros [= <-]; exists []; by rewrite app_nil_r|].
  destruct (d_namespace data) as [ns|]; [|intros [= <-]; exists []; by rewrite app_nil_r].
  destruct (enrich_rna_target db ns (d_identifier data) (d_name data)) as [[t|]|e];
    simpl; intros [= <-].
  - exists (target_edges db node t). split.
    + apply add_target_edges_edges.
    + apply target_edges_target.
  - exists []. by rewrite app_nil_r.
Qed.

Lemma enrich_rnas_loop_edges db nodes : ∀ g g' e,
  for_loop (enrich_rna db) nodes g = (g', e) →
  ∃ new, g_edges g' = g_edges g ++ new ∧ Forall (λ e, e_target e ∈ nodes.*1) new.
Proof.
  induction nodes as [|[n d] nodes IH]; intros g g' e H; cbn [for_loop] in H.
  - injection H as <- <-. exists []. by rewrite app_nil_r.
  - destruct (enrich_rna db g (n, d)) as [g1|e1] eqn:E1.
    + apply enrich_rna_edges in E1 as (new1 & E1 & F1).
      apply IH in H as (new2 & E2 & F2).
      exists (new1 ++ new2). split; [by rewrite E2, E1, app_assoc|].
      apply Forall_app. split.
      * eapply Forall_impl; [exact F1|]. intros x ->. simpl. apply list_elem_of_here.
      * eapply Forall_impl; [exact F2|]. intros x Hx. simpl. by apply list_elem_of_further.
    + injection H as <- <-. exists []. by rewrite app_nil_r.
Qed.

Lemma filter_all {A} (P : A → Prop) `{∀ x, Decision (P x)} (l : list A) :
  Forall P l → filter P l = l.
Proof.
  induction 1 as [|x l Hx _ IH]; [done|]. by rewrite filter_cons_True, IH.
Qed.

Lemma filter_none {A} (P : A → Prop) `{∀ x, Decision (P x)} (l : list A) :
  Forall (λ x, ¬ P x) l → filter P l = [].
Proof.
  induction 1 as [|x l Hx _ IH]; [done|]. by rewrite filter_cons_False.
Qed.

Lemma enrich_rna_resolved db g node data namespace t :
  d_function data = RNA →
  d_namespace data = Some namespace →
  enrich_rna_target db namespace (d_identifier data) (d_name data) = Ok (Some t) →
  enrich_rna db g (node, data) = Ok (add_target_edges db g node t).
Proof.
  intros Hf Hn Ht. unfold enrich_rna. rewrite decide_False by (by intros ?).
  by rewrite Hn, Ht.
Qed.

Lemma enrich_rnas_loop_node db node data namespace t nodes : ∀ g g',
  for_loop (enrich_rna db) nodes g = (g', None) →
  NoDup nodes.*1 →
  (node, data) ∈ nodes →
  d_function data = RNA →
  d_namespace data = Some namespace →
  enrich_rna_target db namespace (d_identifier data) (d_name data) = Ok (Some t) →
  ∃ new, g_edges g' = g_edges g ++ new
         ∧ filter (λ e, e_target e = node) new = target_edges db node t.
Proof.
  induction nodes as [|[n d] nodes IH]; intros g g' H ND Hin Hf Hn Ht.
  { by apply elem_of_nil in Hin. }
  cbn [for_loop] in H. simpl in ND. apply NoDup_cons in ND as [Hfresh ND].
  destruct (enrich_rna db g (n, d)) as [g1|e1] eqn:E1; [|done].
  apply elem_of_cons in Hin as [[= <- <-]|Hin].
  - rewrite (enrich_rna_resolved _ _ _ _ _ _ Hf Hn Ht) in E1. injection E1 as <-.
    apply enrich_rnas_loop_edges in H as (new2 & E2 & F2).
    exists (target_edges db node t ++ new2). split.
    + by rewrite E2, add_target_edges_edges, app_assoc.
    + rewrite filter_app, filter_all, filter_none, app_nil_r;
        [done| |apply target_edges_target].
      eapply Forall_impl; [exact F2|]. intros e He Heq. simpl in He.
      apply Hfresh. by rewrite <- Heq.
  - apply enrich_rna_edges in E1 as (new1 & E1 & F1).
    destruct (IH _ _ H ND Hin Hf Hn Ht) as (new2 & E2 & F2).
    exists (new1 ++ new2). split; [by rewrite E2, E1, app_assoc|].
    rewrite filter_app, F2, filter_none; [done|].
    eapply Forall_impl; [exact F1|]. intros e He Heq. simpl in *.
    apply Hfresh. apply list_elem_of_fmap. exists (node, data).
    split; [|done]. simpl. congruence.
Qed.

(** ** [enrich_rnas]: the edges of a node *)

(** C2. When [enrich_rnas] ends without an exception on a graph (a node
    is listed once) and a node of function RNA resolves to the stored
    target [t], the edges that the call has added to this node are, in
    order, the edges of the evidence records of the interactions of [t]:
    one for each evidence, from the node of the miRNA of the interaction to
    the node, with the relation [DIRECTLY_DECREASES], the reference of the
    evidence as a string for citation and its experiment and support as
    annotations; their number is the sum of the numbers of evidence
    records of the interactions. *)
Theorem enrich_rnas_edges_of_node db graph graph' node data namespace t :
  enrich_rnas db graph = (graph', None) →
  NoDup (g_nodes graph).*1 →
  (node, data) ∈ g_nodes graph →
  d_function data = RNA →
  d_namespace data = Some namespace →
  enrich_rna_target db namespace (d_identifier data) (d_name data) = Ok (Some t) →
  ∃ new,
    g_edges graph' = g_edges graph ++ new
    ∧ filter (λ e, e_target e = node) new
      = flat_map (λ i, map (mti_edge node i) (evidences db i)) (interactions db t)
    ∧ Forall (λ e, ∃ i evidence,
                i ∈ interactions db t ∧ evidence ∈ evidences db i
                ∧ e_source e = to_tuple (mirna_as_bel (mirna i))
                ∧ e_target e = node
                ∧ e_relation e = DIRECTLY_DECREASES
                ∧ e_citation e = str (reference evidence)
                ∧ e_annotations e !! "Experiment" = Some (experiment evidence)
                ∧ e_annotations e !! "SupportType" = Some (support evidence)
                ∧ dom (e_annotations e) = {["Experiment"; "SupportType"]})
             (filter (λ e, e_target e = node) new)
    ∧ length (filter (λ e, e_target e = node) new)
      = sum_list (map (λ i, length (evidences db i)) (interactions db t)).
Proof.
  intros H ND Hin Hf Hn Ht. unfold enrich_rnas in H.
  destruct (enrich_rnas_loop_node _ _ _ _ _ _ _ _ H ND Hin Hf Hn Ht) as (new & E & F).
  exists new. split; [done|]. rewrite F. split; [done|]. split.
  - fold (target_edges db node t). unfold target_edges.
    apply Forall_flat_map, Forall_forall. intros i Hi.
    apply Forall_fmap, Forall_forall. intros ev Hev. exists i, ev. simpl.
    repeat split; done.
  - apply target_edges_length.
Qed.

End GraphLemmas.

(** ** [enrich_rnas]: the target of a node *)

Section Resolution.

Context {C : Collaborators}.

Lemma one_or_none_Some {A} (P : A → Prop) `{∀ x, Decision (P x)} (l : list A) x :
  one_or_none (filter P l) = Ok (Some x) → x ∈ l ∧ P x.
Proof.
  intros E.
  assert (Hx : x ∈ filter P l).
  { destruct (filter P l) as [|y [|z k]]; simplify_eq/=. apply list_elem_of_here. }
  apply list_elem_of_filter in Hx as [? ?]. done.
Qed.

Lemma one_or_none_None {A} (P : A → Prop) `{∀ x, Decision (P x)} (l : list A) :
  one_or_none (filter P l) = Ok None → ∀ x, x ∈ l → ¬ P x.
Proof.
  intros E x Hx HP.
  assert (Hin : x ∈ filter P l) by (by apply list_elem_of_filter).
  destruct (filter P l) as [|y [|z k]]; simplify_eq/=. by apply elem_of_nil in Hin.
Qed.

Lemma one_or_none_none {A} (P : A → Prop) `{∀ x, Decision (P x)} (l : list A) :
  (∀ x, x ∈ l → ¬ P x) → one_or_none (filter P l) = Ok None.
Proof. intros Hl. rewrite filter_none; [done|]. by apply Forall_forall. Qed.

Lemma one_or_none_one {A} (P : A → Prop) `{∀ x, Decision (P x)} (l1 l2 : list A) x :
  P x → (∀ y, y ∈ l1 ++ l2 → ¬ P y) → one_or_none (filter P (l1 ++ x :: l2)) = Ok (Some x).
Proof.
  intros Hx Hl. rewrite filter_app, filter_cons_True by done.
  rewrite !filter_none; [done| |]; apply Forall_forall; intros y Hy; apply Hl;
    apply elem_of_app; auto.
Qed.

Lemma exact_match_filter (field : Target → option string) db :
  exact_match field
    (λ db v, one_or_none (filter (λ t, field t = Some v) (target_table db))) db.
Proof.
  split_and!.
  - intros v t H. by apply (one_or_none_Some (λ t, field t = Some v)) in H.
  - intros v. apply (one_or_none_None (λ t, field t = Some v)).
  - intros v. apply (one_or_none_none (λ t, field t = Some v)).
  - intros v t l1 l2 -> Ht Hl.
    by apply (one_or_none_one (λ t, field t = Some v)).
Qed.

Lemma exact_match_entrez db :
  exact_match (λ t, Some (entrez_id t)) query_target_by_entrez_id db.
Proof.
  unfold query_target_by_entrez_id. split_and!.
  - intros v t H. apply (one_or_none_Some (λ t, entrez_id t = v)) in H as [? ->].
    done.
  - intros v H t Ht [= E]. by apply (one_or_none_None _ _ H t Ht).
  - intros v Hl. apply (one_or_none_none (λ t, entrez_id t = v)).
    intros t Ht E. apply (Hl t Ht). by rewrite E.
  - intros v t l1 l2 -> [= Ht] Hl.
    apply (one_or_none_one (λ t, entrez_id t = v)); [done|].
    intros t' Ht' E. apply (Hl t' Ht'). by rewrite E.
Qed.

(** C4. For a node of function RNA whose namespace is "HGNC" in any
    letter case: when the node has an identifier (the test [if identifier:]
    holds, so it has a non-empty one), the iteration of [enrich_rnas] goes
    on with the result of the query on [hgnc_id] for it; when it has none
    and has a name, with the result of the query on [hgnc_symbol] for the
    name; when it has neither, the iteration raises [IndexError]. The two
    queries compare their field for equality. *)
Theorem enrich_rna_hgnc db g node data namespace :
  d_function data = RNA →
  d_namespace data = Some namespace →
  lower namespace = lower "HGNC" →
  (∀ identifier, truthy (d_identifier data) = Some identifier →
     enrich_rna db g (node, data)
     = continues_with db g node (query_target_by_hgnc_identifier db identifier))
  ∧ (∀ name, truthy (d_identifier data) = None → truthy (d_name data) = Some name →
       enrich_rna db g (node, data)
       = continues_with db g node (query_target_by_hgnc_symbol db name))
  ∧ (truthy (d_identifier data) = None → truthy (d_name data) = None →
       enrich_rna db g (node, data) = Raise IndexError)
  ∧ exact_match hgnc_id query_target_by_hgnc_identifier db
  ∧ exact_match hgnc_symbol query_target_by_hgnc_symbol db.
Proof.
  intros Hf Hn Hl.
  assert (Hbody : enrich_rna db g (node, data)
    = continues_with db g node
        (_enrich_rna_handle_hgnc db (d_identifier data) (d_name data))).
  { unfold enrich_rna, enrich_rna_target.
    rewrite decide_False by (by intros ?). rewrite Hn.
    by rewrite decide_True by done. }
  rewrite Hbody. unfold _enrich_rna_handle_hgnc. split_and!.
  - by intros i ->.
  - by intros n -> ->.
  - by intros -> ->.
  - apply (exact_match_filter hgnc_id).
  - apply (exact_match_filter hgnc_symbol).
Qed.

(** C7. For a node of function RNA whose namespace is not "HGNC" in any
    letter case: when the namespace, in lower case, is one of
    [VALID_ENTREZ_NAMESPACES], the iteration of [enrich_rnas] goes on with
    the result of the query on [entrez_id] for the identifier of the node
    when it has one and for its name, taken as an identifier, when it has
    no identifier and has a name; when the namespace is not one of the set,
    the iteration leaves the graph as it is and raises nothing. The query
    compares [entrez_id] for equality. *)
Theorem enrich_rna_entrez db g node data namespace :
  d_function data = RNA →
  d_namespace data = Some namespace →
  lower namespace ≠ lower "HGNC" →
  (lower namespace ∈ VALID_ENTREZ_NAMESPACES →
     (∀ identifier, truthy (d_identifier data) = Some identifier →
        enrich_rna db g (node, data)
        = continues_with db g node (query_target_by_entrez_id db identifier))
     ∧ (∀ name, truthy (d_identifier data) = None → truthy (d_name data) = Some name →
          enrich_rna db g (node, data)
          = continues_with db g node (query_target_by_entrez_id db name)))
  ∧ (lower namespace ∉ VALID_ENTREZ_NAMESPACES →
       enrich_rna db g (node, data) = Ok g)
  ∧ exact_match (λ t, Some (entrez_id t)) query_target_by_entrez_id db.
Proof.
  intros Hf Hn Hl.
  assert (Hbody : enrich_rna db g (node, data)
    = continues_with db g node
        (if decide (lower namespace ∈ VALID_ENTREZ_NAMESPACES)
         then _enrich_rna_handle_entrez db (d_identifier data) (d_name data)
         else Ok None)).
  { unfold enrich_rna, enrich_rna_target.
    rewrite decide_False by (by intros ?). rewrite Hn.
    by rewrite decide_False by done. }
  rewrite Hbody. unfold _enrich_rna_handle_entrez. split_and!.
  - intros Hv. rewrite decide_True by done. split.
    + by intros i ->.
    + by intros n -> ->.
  - intros Hv. by rewrite decide_False by done.
  - apply exact_match_entrez.
Qed.

End Resolution.

(** ** [to_bel] *)

Section ToBel.

Context {C : Collaborators}.

Lemma add_node_from_data_elem g d x :
  x ∈ (g_nodes (add_node_from_data g d)).*1 ↔ x ∈ (g_nodes g).*1 ∨ x = to_tuple d.
Proof.
  rewrite add_node_from_data_keys, elem_of_app. case_decide as D.
  - rewrite elem_of_nil. split; [tauto|]. intros [?| ->]; auto.
  - by rewrite list_elem_of_singleton.
Qed.

Lemma add_node_from_data_NoDup g d :
  NoDup (g_nodes g).*1 → NoDup (g_nodes (add_node_from_data g d)).*1.
Proof.
  intros ND. rewrite add_node_from_data_keys. case_decide as D.
  - by rewrite app_nil_r.
  - apply NoDup_app. split_and!; [done| |apply NoDup_singleton].
    intros x Hx Hx'. apply list_elem_of_singleton in Hx' as ->. done.
Qed.

Lemma add_to_graph_edges evidence g :
  g_edges (add_to_graph evidence g) = g_edges g ++ [evidence_edge evidence].
Proof.
  unfold add_to_graph, add_qualified_edge. simpl.
  by rewrite !add_node_from_data_edges.
Qed.

Lemma add_to_graph_elem evidence g x :
  x ∈ (g_nodes (add_to_graph evidence g)).*1
  ↔ x ∈ (g_nodes g).*1
    ∨ x = e_source (evidence_edge evidence) ∨ x = e_target (evidence_edge evidence).
Proof.
  unfold add_to_graph, add_qualified_edge. simpl.
  rewrite !add_node_from_data_elem. tauto.
Qed.

Lemma add_to_graph_NoDup evidence g :
  NoDup (g_nodes g).*1 → NoDup (g_nodes (add_to_graph evidence g)).*1.
Proof.
  intros ND. unfold add_to_graph, add_qualified_edge. simpl.
  by do 2 apply add_node_from_data_NoDup.
Qed.

Lemma add_to_graph_urls evidence g :
  namespace_url (add_to_graph evidence g) = namespace_url g
  ∧ namespace_pattern (add_to_graph evidence g) = namespace_pattern g.
Proof.
  unfold add_to_graph, add_qualified_edge. simpl.
  destruct (add_node_from_data_urls g
              (mirna_as_bel (mirna (interaction evidence)))) as [<- <-].
  apply add_node_from_data_urls.
Qed.

(** The graph after the loop of [to_bel]. *)
Lemma add_all_to_graph evs : ∀ g,
  let g' := foldl (λ g evidence, add_to_graph evidence g) g evs in
  g_edges g' = g_edges g ++ map evidence_edge evs
  ∧ (NoDup (g_nodes g).*1 → NoDup (g_nodes g').*1)
  ∧ (∀ x, x ∈ (g_nodes g').*1
          ↔ x ∈ (g_nodes g).*1
            ∨ ∃ ev, ev ∈ evs ∧ (x = e_source (evidence_edge ev)
                                ∨ x = e_target (evidence_edge ev)))
  ∧ namespace_url g' = namespace_url g
  ∧ namespace_pattern g' = namespace_pattern g.
Proof.
  induction evs as [|ev evs IH]; intros g; simpl.
  - rewrite app_nil_r. split_and!; try done.
    intros x. split; [auto|]. intros [?|(ev & Hev & _)]; [done|].
    by apply elem_of_nil in Hev.
  - destruct (IH (add_to_graph ev g)) as (E & ND & El & U & P).
    destruct (add_to_graph_urls ev g) as [U1 P1].
    split_and!.
    + by rewrite E, add_to_graph_edges, <- app_assoc.
    + intros H. by apply ND, add_to_graph_NoDup.
    + intros x. rewrite El, add_to_graph_elem. split.
      * intros [[?|H]|(ev' & Hev & H)]; [by left| |].
        -- right. exists ev. split; [apply list_elem_of_here|done].
        -- right. exists ev'. split; [by apply list_elem_of_further|done].
      * intros [?|(ev' & Hev & H)]; [by left; left|].
        apply elem_of_cons in Hev as [-> |Hev]; [by left; right|].
        right. by exists ev'.
    + by rewrite U.
    + by rewrite P.
Qed.

(** C8. The graph of [to_bel] has the namespaces of the two managers and
    nothing else than what the evidence records of the store give it: its
    edges are the edges of the evidence records, one for each and in the
    order of the list, each built from the evidence and its interaction
    alone, and its nodes are the ends of these edges. A store with the same
    evidence records in another order gives a graph with the same content. *)
Theorem to_bel_one_edge_per_evidence hgnc_namespace entrez_namespace db :
  let graph := to_bel hgnc_namespace entrez_namespace db in
  namespace_url graph
  = <[keyword entrez_namespace := url entrez_namespace]>
      (<[keyword hgnc_namespace := url hgnc_namespace]> ∅)
  ∧ g_edges graph = map evidence_edge (list_evidences db)
  ∧ length (g_edges graph) = count_evidences db
  ∧ (∀ x, x ∈ (g_nodes graph).*1
          ↔ ∃ ev, ev ∈ list_evidences db
                  ∧ (x = e_source (evidence_edge ev) ∨ x = e_target (evidence_edge ev)))
  ∧ ∀ db', evidence_table db' ≡ₚ evidence_table db →
      same_content (to_bel hgnc_namespace entrez_namespace db') graph.
Proof.
  assert (Hrun : ∀ db0,
    let graph := to_bel hgnc_namespace entrez_namespace db0 in
    namespace_url graph
    = <[keyword entrez_namespace := url entrez_namespace]>
        (<[keyword hgnc_namespace := url hgnc_namespace]> ∅)
    ∧ namespace_pattern graph = <[MIRBASE := "^.*$"]> ∅
    ∧ g_edges graph = map evidence_edge (evidence_table db0)
    ∧ NoDup (g_nodes graph).*1
    ∧ (∀ x, x ∈ (g_nodes graph).*1
            ↔ ∃ ev, ev ∈ evidence_table db0
                    ∧ (x = e_source (evidence_edge ev)
                       ∨ x = e_target (evidence_edge ev)))).
  { intros db0. unfold to_bel, list_evidences.
    match goal with |- context [foldl _ ?g0 _] =>
      destruct (add_all_to_graph (evidence_table db0) g0) as (E & ND & El & U & P)
    end.
    simpl in *. split_and!; try done.
    - apply ND. constructor.
    - intros x. rewrite El. split; [|auto].
      intros [Hx|?]; [by apply elem_of_nil in Hx|done]. }
  destruct (Hrun db) as (U & P & E & ND & El). simpl. split_and!; try done.
  - unfold count_evidences. by rewrite E, length_map.
  - intros db' Hp. destruct (Hrun db') as (U' & P' & E' & ND' & El').
    unfold same_content. split_and!.
    + apply NoDup_Permutation; [done|done|]. intros x. rewrite El, El'.
      split; intros (ev & Hev & H); exists ev; split; try done.
      * by rewrite <- Hp.
      * by rewrite Hp.
    + rewrite E, E'. by apply fmap_Permutation.
    + by rewrite U, U'.
    + by rewrite P, P'.
Qed.

End ToBel.

(** ** [enrich_mirnas] *)

Section EnrichMirnas.

Context {C : Collaborators}.

(** No iteration of the loop of [enrich_mirnas] ends with a name more in
    [mirtarbase_names]. *)
Lemma enrich_mirna_names names nd names' :
  enrich_mirna names nd = Ok names' → names' = names.
Proof.
  destruct nd as [node data]. unfold enrich_mirna.
  repeat (case_decide || case_match); by intros [= <-].
Qed.

Lemma enrich_mirnas_loop_names nodes : ∀ names names' e,
  for_loop enrich_mirna nodes names = (names', e) → names' = names.
Proof.
  induction nodes as [|nd nodes IH]; intros names names' e H; cbn [for_loop] in H.
  - by injection H as <- _.
  - destruct (enrich_mirna names nd) as [names1|e1] eqn:E1.
    + apply enrich_mirna_names in E1 as ->. eauto.
    + by injection H as <- _.
Qed.

(** [enrich_mirnas] never adds anything to a graph. *)
Lemma enrich_mirnas_graph db graph : (enrich_mirnas db graph).1 = graph.
Proof.
  unfold enrich_mirnas.
  destruct (for_loop enrich_mirna (g_nodes graph) ∅) as [names [e|]] eqn:E; [done|].
  apply enrich_mirnas_loop_names in E as ->. by rewrite decide_True.
Qed.

(** A miRNA node of the namespace "mirtarbase" ends the call with
    [IndexError], with a name or without. *)
Lemma enrich_mirnas_mirtarbase_raises db graph node data namespace :
  (node, data) ∈ g_nodes graph →
  d_function data = MIRNA →
  d_namespace data = Some namespace →
  lower namespace = "mirtarbase" →
  enrich_mirnas db graph = (graph, Some IndexError).
Proof.
  intros Hin Hf Hn Hl. unfold enrich_mirnas.
  assert (H : ∀ names, ∃ names',
    for_loop enrich_mirna (g_nodes graph) names = (names', Some IndexError)).
  { induction (g_nodes graph) as [|nd nodes IH]; [by apply elem_of_nil in Hin|].
    intros names. cbn [for_loop].
    apply elem_of_cons in Hin as [<- |Hin].
    - exists names. unfold enrich_mirna.
      rewrite decide_False by (by intros ?). rewrite Hn.
      by rewrite decide_True by done.
    - destruct (enrich_mirna names nd) as [names1|e1] eqn:E1; [by apply IH|].
      exists names. destruct nd as [n d]. unfold enrich_mirna in E1.
      repeat (case_decide || case_match); by simplify_eq. }
  by destruct (H ∅) as [names ->].
Qed.

End EnrichMirnas.

(** C3. [enrich_mirnas] returns every graph as it received it, and on the
    graph whose one node is the miRNA "mmu-miR-124-3p" of the namespace
    "mirtarbase", a node with a name and a miRNA of the store with two
    evidence records, it raises [IndexError]. *)
Theorem enrich_mirnas_raises_on_named_node :
  (∀ (C : Collaborators) db graph, (enrich_mirnas db graph).1 = graph)
  ∧ (let graph := Example.graph_of
                    [Example.mirna_node "mirtarbase" (Some "mmu-miR-124-3p")] in
     @enrich_mirnas Example.collaborators Example.db graph = (graph, Some IndexError)
     ∧ length (query_evidences_by_mirna_names Example.db {["mmu-miR-124-3p"]}) = 2).
Proof.
  split; [intros C db graph; apply enrich_mirnas_graph|].
  split; [|by vm_compute].
  eapply (@enrich_mirnas_mirtarbase_raises Example.collaborators);
    [apply list_elem_of_here|done..].
Qed.

(** ** [enrich.py] against [Manager.enrich_rnas] *)

(** C9. On the store of the example and the graph whose one node is the RNA
    of the namespace "hgnc", in lower case, with the HGNC identifier of the
    gene of the store, [Manager.enrich_rnas] adds the three edges of the
    target and [enrich_rnas] of [enrich.py] adds none, whatever the two
    attributes of the models that only [enrich.py] reads are. *)
Theorem enrich_py_skips_lower_case_hgnc
    (serialize_to_bel : Mirna → result NodeData)
    (interaction_evidence : Store → Interaction → result Evidence) :
  let graph := Example.graph_of [Example.rna "hgnc" None (Some "2561")] in
  @Enrich.enrich_rnas Example.collaborators serialize_to_bel interaction_evidence
    Example.db graph = (graph, None)
  ∧ (@enrich_rnas Example.collaborators Example.db graph).2 = None
  ∧ length (g_edges (@enrich_rnas Example.collaborators Example.db graph).1) = 3
  ∧ length (g_edges graph) = 0.
Proof. by vm_compute. Qed.

(** ** The import of the package *)

Lemma exec_stmt_raises im ns s e :
  (∀ m e', im m = Raise e' → e' = ImportError) →
  Package.exec_stmt im ns s = Raise e → e = ImportError.
Proof.
  intros Him. destruct s as [m|m names|m|x]; simpl;
    try (destruct (im m) as [exports|e'] eqn:E; simpl;
         [|intros [= <-]; by eapply Him]);
    try case_decide; by intros [=].
Qed.

Lemma exec_raises im body : ∀ ns e,
  (∀ m e', im m = Raise e' → e' = ImportError) →
  Package.exec im body ns = Raise e → e = ImportError.
Proof.
  induction body as [|s body IH]; intros ns e Him; simpl; [done|].
  destruct (Package.exec_stmt im ns s) as [ns'|e'] eqn:E; simpl.
  - by apply IH.
  - intros [= <-]. by eapply exec_stmt_raises.
Qed.

Lemma import_external_raises env m e :
  Package.import_external env m = Raise e → e = ImportError.
Proof. unfold Package.import_external. destruct (env m); by intros [=]. Qed.

Lemma import_manager_raises env e :
  Package.import_manager env = Raise e → e = ImportError.
Proof. apply exec_raises. intros m e'. apply import_external_raises. Qed.

Lemma import_enrich_raises env e :
  Package.import_enrich env = Raise e → e = ImportError.
Proof.
  apply exec_raises. intros m e'. case_decide.
  - apply import_manager_raises.
  - apply import_external_raises.
Qed.

(** The names of [enrich.py]. *)
Lemma import_enrich_names env ns x :
  Package.import_enrich env = Ok ns →
  x ∈ ns →
  x ∈ ["logging"; "Manager"; "log"; "enrich_rnas"]
  ∨ ∃ exports, env "pybel.constants" = Some exports ∧ x ∈ exports.
Proof.
  unfold Package.import_enrich, Package.enrich_py. simpl.
  unfold Package.import_external.
  destruct (env "logging") as [l|]; [simpl|done].
  destruct (env "pybel.constants") as [exports|]; [simpl|done].
  destruct (Package.import_manager env) as [mng|]; [simpl|done].
  case_decide; [simpl|done]. intros [= <-].
  rewrite !elem_of_union, !elem_of_singleton, elem_of_filter, !elem_of_empty.
  rewrite !elem_of_cons, elem_of_nil.
  intros [[[[[?|?]|[_ ?]]|[?|?]]|?]|?]; try tauto. right. eauto.
Qed.

(** C10. [enrich.py] binds [enrich_rnas] and not [enrich_mirnas], a method
    of [Manager]; so when the names [enrich.py] takes from [pybel.constants]
    by its star import do not have [enrich_mirnas] among them, the import
    of the package raises [ImportError], whatever is installed. *)
Theorem import_package_fails (env : Package.environment) :
  (∀ exports, env "pybel.constants" = Some exports → "enrich_mirnas" ∉ exports) →
  Package.import_package env = Raise ImportError
  ∧ Package.Bind "enrich_rnas" ∈ Package.enrich_py
  ∧ Package.Bind "enrich_mirnas" ∉ Package.enrich_py.
Proof.
  intros Hstar. split; [|split].
  - unfold Package.import_package, Package.init_py. simpl.
    destruct (Package.import_enrich env) as [ns|e] eqn:E; simpl.
    + rewrite decide_False; [done|]. intros Hsub.
      assert (Hin : "enrich_mirnas" ∈ ns).
      { apply Hsub. apply elem_of_union. left. by apply elem_of_singleton. }
      destruct (import_enrich_names _ _ _ E Hin) as [H|(exports & He & H)].
      * rewrite !elem_of_cons, elem_of_nil in H. by destruct H as [?|[?|[?|[?|?]]]].
      * by eapply Hstar.
    + by apply import_enrich_raises in E as ->.
  - unfold Package.enrich_py. rewrite !elem_of_cons. auto 10.
  - unfold Package.enrich_py. rewrite !elem_of_cons, elem_of_nil.
    by intros [?|[?|[?|[?|[?|?]]]]].
Qed.

(** ** The theorems on the example *)

(** The three rows of the example: two keys, two interactions. *)
Lemma populate_one_interaction_per_key_witness :
  Forall (λ row, is_Some (row_key row)) Example.df
  ∧ ∃ s' Is Es,
      populate Example.hgnc Example.df Example.empty_session = (s', None)
      ∧ interaction_table (committed s')
        = interaction_table (committed Example.empty_session)
          ++ interaction_table (pending Example.empty_session) ++ Is
      ∧ evidence_table (committed s')
        = evidence_table (committed Example.empty_session)
          ++ evidence_table (pending Example.empty_session) ++ Es
      ∧ length Es = length Example.df
      ∧ ∀ k,
          match rows_of k Example.df with
          | [] => interactions_of k Is = []
          | first :: rest =>
              ∃ i, interactions_of k Is = [i]
                   ∧ mirtarbase_id i = r_mirtarbase_id first
                   ∧ length (evidences_of i Es) = length (first :: rest)
          end.
Proof.
  assert (H : Forall (λ row, is_Some (row_key row)) Example.df)
    by (repeat constructor; by eexists).
  split; [exact H|].
  exact (populate_one_interaction_per_key Example.hgnc Example.df Example.empty_session H).
Defined.

(** The rows of the example whose second gene identifier is NaN. *)
Lemma populate_aborts_on_bad_gene_id_witness :
  Exists (λ row, int (r_entrez_id row) = Raise ValueError) Example.bad_df
  ∧ ∃ s', populate Example.hgnc Example.bad_df Example.empty_session
          = (s', Some ValueError)
          ∧ committed s' = committed Example.empty_session.
Proof.
  assert (H : Exists (λ row, int (r_entrez_id row) = Raise ValueError) Example.bad_df)
    by (apply Exists_cons_tl, Exists_cons_hd; reflexivity).
  split; [exact H|].
  exact (populate_aborts_on_bad_gene_id Example.hgnc Example.bad_df Example.empty_session H).
Defined.

(** The node of the gene of the example, by its HGNC symbol. *)
Lemma enrich_rnas_edges_of_node_witness :
  let C := Example.collaborators in
  let data := Example.rna "HGNC" (Some "CXCR4") None in
  let node := to_tuple data in
  let graph := Example.graph_of [data; Example.rna "EGID" None (Some "7852")] in
  let graph' := (enrich_rnas Example.db graph).1 in
  ∃ new,
    g_edges graph' = g_edges graph ++ new
    ∧ filter (λ e, e_target e = node) new
      = flat_map (λ i, map (mti_edge node i) (evidences Example.db i))
          (interactions Example.db Example.cxcr4)
    ∧ Forall (λ e, ∃ i evidence,
                i ∈ interactions Example.db Example.cxcr4
                ∧ evidence ∈ evidences Example.db i
                ∧ e_source e = to_tuple (mirna_as_bel (mirna i))
                ∧ e_target e = node
                ∧ e_relation e = DIRECTLY_DECREASES
                ∧ e_citation e = str (reference evidence)
                ∧ e_annotations e !! "Experiment" = Some (experiment evidence)
                ∧ e_annotations e !! "SupportType" = Some (support evidence)
                ∧ dom (e_annotations e) = {["Experiment"; "SupportType"]})
             (filter (λ e, e_target e = node) new)
    ∧ length (filter (λ e, e_target e = node) new)
      = sum_list (map (λ i, length (evidences Example.db i))
                    (interactions Example.db Example.cxcr4)).
Proof.
  intros C data node graph graph'.
  apply (enrich_rnas_edges_of_node (C := C) Example.db graph graph' node data "HGNC"
           Example.cxcr4).
  - by vm_compute.
  - apply (bool_decide_unpack _). by vm_compute.
  - apply list_elem_of_here.
  - reflexivity.
  - reflexivity.
  - by vm_compute.
Defined.

(** A node of the namespace "Hgnc". *)
Lemma enrich_rna_hgnc_witness :
  let C := Example.collaborators in
  let db := Example.db in
  let g := Example.graph_of [Example.rna "Hgnc" (Some "CXCR4") None] in
  let data := Example.rna "Hgnc" (Some "CXCR4") None in
  let node := to_tuple data in
  (∀ identifier, truthy (d_identifier data) = Some identifier →
     enrich_rna db g (node, data)
     = continues_with db g node (query_target_by_hgnc_identifier db identifier))
  ∧ (∀ name, truthy (d_identifier data) = None → truthy (d_name data) = Some name →
       enrich_rna db g (node, data)
       = continues_with db g node (query_target_by_hgnc_symbol db name))
  ∧ (truthy (d_identifier data) = None → truthy (d_name data) = None →
       enrich_rna db g (node, data) = Raise IndexError)
  ∧ exact_match hgnc_id query_target_by_hgnc_identifier db
  ∧ exact_match hgnc_symbol query_target_by_hgnc_symbol db.
Proof.
  intros C db g data node.
  apply (enrich_rna_hgnc (C := C) db g node data "Hgnc"); reflexivity.
Defined.

(** A node of the namespace "EGID". *)
Lemma enrich_rna_entrez_witness :
  let C := Example.collaborators in
  let db := Example.db in
  let g := Example.graph_of [Example.rna "EGID" (Some "7852") None] in
  let data := Example.rna "EGID" (Some "7852") None in
  let node := to_tuple data in
  (lower "EGID" ∈ VALID_ENTREZ_NAMESPACES →
     (∀ identifier, truthy (d_identifier data) = Some identifier →
        enrich_rna db g (node, data)
        = continues_with db g node (query_target_by_entrez_id db identifier))
     ∧ (∀ name, truthy (d_identifier data) = None → truthy (d_name data) = Some name →
          enrich_rna db g (node, data)
          = continues_with db g node (query_target_by_entrez_id db name)))
  ∧ (lower "EGID" ∉ VALID_ENTREZ_NAMESPACES → enrich_rna db g (node, data) = Ok g)
  ∧ exact_match (λ t, Some (entrez_id t)) query_target_by_entrez_id db.
Proof.
  intros C db g data node.
  apply (enrich_rna_entrez (C := C) db g node data "EGID");
    [reflexivity | reflexivity | by vm_compute].
Defined.

(** An environment in which every other module is installed. *)
Lemma import_package_fails_witness :
  (∀ exports, Example.env "pybel.constants" = Some exports → "enrich_mirnas" ∉ exports)
  ∧ Package.import_package Example.env = Raise ImportError
  ∧ Package.Bind "enrich_rnas" ∈ Package.enrich_py
  ∧ Package.Bind "enrich_mirnas" ∉ Package.enrich_py.
Proof.
  assert (H : ∀ exports, Example.env "pybel.constants" = Some exports
                         → "enrich_mirnas" ∉ exports).
  { intros exports [= <-]. apply (bool_decide_unpack _). by vm_compute. }
  split; [exact H|]. exact (import_package_fails Example.env H).
Defined.

(** * Further properties *)

(** ** The dictionaries of [populate] *)

Section Caches.

Context `{Countable K} {A : Type} (key : A → K).

Lemma cache_ok_empty : cache_ok key ∅ [].
Proof. intros k. by rewrite lookup_empty. Qed.

Lemma cache_ok_lookup cache l k x :
  cache_ok key cache l → cache !! k = Some x → x ∈ l ∧ key x = k.
Proof.
  intros Hc L. specialize (Hc k). rewrite L in Hc. simpl in Hc.
  assert (Hx : x ∈ filter (λ x, key x = k) l) by (rewrite Hc; apply list_elem_of_here).
  apply list_elem_of_filter in Hx as [? ?]. done.
Qed.

Lemma cache_ok_elem cache l x :
  cache_ok key cache l → x ∈ l → cache !! key x = Some x.
Proof.
  intros Hc Hx. specialize (Hc (key x)).
  assert (Hin : x ∈ filter (λ y, key y = key x) l) by (by apply list_elem_of_filter).
  rewrite Hc in Hin. destruct (cache !! key x) as [y|]; simpl in Hin.
  - by apply list_elem_of_singleton in Hin as ->.
  - by apply elem_of_nil in Hin.
Qed.

Lemma cache_ok_insert cache l k x :
  cache_ok key cache l → cache !! k = None → key x = k →
  cache_ok key (<[k := x]> cache) (l ++ [x]).
Proof.
  intros Hc L Hk k'. rewrite filter_app, Hc, (filter_cons _ x []), filter_nil.
  destruct (decide (k = k')) as [<- |Hne].
  - rewrite lookup_insert_eq, L, decide_True by done. done.
  - rewrite lookup_insert_ne, decide_False by congruence. by rewrite app_nil_r.
Qed.

Lemma cache_ok_NoDup cache l : cache_ok key cache l → NoDup (key <$> l).
Proof.
  intros Hc.
  assert (Hone : ∀ k, (length (filter (λ x, key x = k) l) ≤ 1)%nat).
  { intros k. rewrite Hc. destruct (cache !! k); simpl; lia. }
  clear Hc. induction l as [|x l IH]; simpl; [constructor|].
  apply NoDup_cons. split.
  - intros Hin. apply list_elem_of_fmap in Hin as (y & Hy & Hin).
    specialize (Hone (key x)). rewrite filter_cons_True in Hone by done.
    assert (Hy' : y ∈ filter (λ z, key z = key x) l) by (by apply list_elem_of_filter).
    destruct (filter (λ z, key z = key x) l); [by apply elem_of_nil in Hy'|].
    simpl in Hone. lia.
  - apply IH. intros k. specialize (Hone k). rewrite filter_cons in Hone.
    case_decide; simpl in Hone; lia.
Qed.

End Caches.

Lemma species_tables s0 n st sp st' Ss Ms Ts Is Es :
  tables_inv s0 st Ss Ms Ts Is Es →
  get_or_create_species n st = (sp, st') →
  ∃ ext,
    tables_inv s0 st' (Ss ++ ext) Ms Ts Is Es
    ∧ sp ∈ Ss ++ ext ∧ species_name sp = n
    ∧ name_mirna st' = name_mirna st
    ∧ target_set st' = target_set st
    ∧ interaction_set st' = interaction_set st.
Proof.
  intros I H. unfold get_or_create_species in H.
  destruct (species_set st !! n) as [sp0|] eqn:L.
  - injection H as <- <-. exists []. rewrite app_nil_r.
    destruct (cache_ok_lookup _ _ _ _ _ (ti_species_cache _ _ _ _ _ _ _ I) L). done.
  - injection H as <- <-. eexists [_]. destruct I. split_and!; try done.
    + split; simpl; try done.
      * by rewrite ti_species0, app_assoc.
      * by apply cache_ok_insert.
      * intros m Hm. apply elem_of_app. left. auto.
      * intros t Ht. apply elem_of_app. left. auto.
    + apply elem_of_app. right. apply list_elem_of_here.
Qed.

Lemma mirna_tables s0 row st m st' Ss Ms Ts Is Es :
  tables_inv s0 st Ss Ms Ts Is Es →
  get_or_create_mirna row st = (m, st') →
  ∃ Ss' Ms',
    tables_inv s0 st' Ss' Ms' Ts Is Es
    ∧ mirna_name m = r_mirna_name row
    ∧ m ∈ Ms'
    ∧ ((Ms' = Ms ∧ is_Some (name_mirna st !! r_mirna_name row))
       ∨ (Ms' = Ms ++ [m]
          ∧ name_mirna st !! r_mirna_name row = None
          ∧ species_name (mirna_species m) = r_mirna_species row))
    ∧ target_set st' = target_set st
    ∧ interaction_set st' = interaction_set st.
Proof.
  intros I H. unfold get_or_create_mirna in H.
  destruct (name_mirna st !! r_mirna_name row) as [m0|] eqn:L.
  - injection H as <- <-. exists Ss, Ms.
    destruct (cache_ok_lookup _ _ _ _ _ (ti_mirna_cache _ _ _ _ _ _ _ I) L).
    split_and!; try done. left. split; [done|eauto].
  - destruct (get_or_create_species (r_mirna_species row) st) as [sp st1] eqn:Es'.
    destruct (species_tables _ _ _ _ _ _ _ _ _ _ I Es')
      as (ext & I1 & Hsp & Hname & Em & Et & Ei).
    injection H as <- <-. eexists (Ss ++ ext), (Ms ++ [_]).
    destruct I1. split_and!; simpl; try done.
    + split; simpl; try done.
      * by rewrite ti_mirnas0, app_assoc.
      * apply cache_ok_insert; [done| |done]. by rewrite Em.
      * intros m Hm. apply elem_of_app in Hm as [Hm|Hm]; [auto|].
        by apply list_elem_of_singleton in Hm as ->.
      * intros i Hi. destruct (ti_parts0 i Hi). split; [|done].
        apply elem_of_app. by left.
    + apply elem_of_app. right. apply list_elem_of_here.
    + right. done.
Qed.

Lemma target_tables emap s0 row e st t st' Ss Ms Ts Is Es :
  tables_inv s0 st Ss Ms Ts Is Es →
  get_or_create_target emap row e st = (t, st') →
  ∃ Ss' Ts',
    tables_inv s0 st' Ss' Ms Ts' Is Es
    ∧ entrez_id t = e
    ∧ t ∈ Ts'
    ∧ ((Ts' = Ts ∧ is_Some (target_set st !! e))
       ∨ (Ts' = Ts ++ [t]
          ∧ target_set st !! e = None
          ∧ target_name t = r_gene_name row
          ∧ species_name (target_species t) = r_target_species row))
    ∧ name_mirna st' = name_mirna st
    ∧ interaction_set st' = interaction_set st.
Proof.
  intros I H. unfold get_or_create_target in H.
  destruct (target_set st !! e) as [t0|] eqn:L.
  - injection H as <- <-. exists Ss, Ts.
    destruct (cache_ok_lookup _ _ _ _ _ (ti_target_cache _ _ _ _ _ _ _ I) L).
    split_and!; try done. left. split; [done|eauto].
  - destruct (get_or_create_species (r_target_species row) st) as [sp st1] eqn:Es'.
    destruct (species_tables _ _ _ _ _ _ _ _ _ _ I Es')
      as (ext & I1 & Hsp & Hname & Em & Et & Ei).
    assert (Hid : target_id t = next_id target_table s0 + length Ts
                  ∧ entrez_id t = e ∧ target_name t = r_gene_name row
                  ∧ target_species t = sp).
    { destruct I1. unfold next_id in *.
      destruct (emap !! e); injection H as <- _; simpl;
        rewrite ti_committed0, ti_targets0, length_app; split_and!; try done; lia. }
    destruct Hid as (Hid & He & Hn & Hs).
    assert (Hst : st' = {| name_mirna := name_mirna st1;
                           target_set := <[e := t]> (target_set st1);
                           species_set := species_set st1;
                           interaction_set := interaction_set st1;
                           session := session_add_target t (session st1) |}).
    { by destruct (emap !! e); injection H as <- <-. }
    clear H. subst st'. exists (Ss ++ ext), (Ts ++ [t]).
    destruct I1. split_and!; simpl; try done.
    + split; simpl; try done.
      * by rewrite ti_targets0, app_assoc.
      * apply cache_ok_insert; [done| |done]. by rewrite Et.
      * intros t' Ht. apply elem_of_app in Ht as [Ht|Ht]; [auto|].
        apply list_elem_of_singleton in Ht as ->. by rewrite Hs.
      * intros i Hi. destruct (ti_parts0 i Hi). split; [done|].
        apply elem_of_app. by left.
      * rewrite fmap_app, length_app, seq_app, ti_target_ids0. simpl. by rewrite Hid.
    + apply elem_of_app. right. apply list_elem_of_here.
    + right. split_and!; try done. by rewrite Hs.
Qed.

Lemma interaction_tables emap s0 row e st i st' Ss Ms Ts Is Es :
  tables_inv s0 st Ss Ms Ts Is Es →
  get_or_create_interaction emap row e st = (i, st') →
  ∃ Ss' Ms' Ts' Is',
    tables_inv s0 st' Ss' Ms' Ts' Is' Es
    ∧ interaction_key i = (r_mirna_name row, e)
    ∧ i ∈ Is'
    ∧ interaction_set st' !! (r_mirna_name row, e) = Some i
    ∧ (∀ k, is_Some (interaction_set st !! k) → is_Some (interaction_set st' !! k))
    ∧ (Ms' = Ms
       ∨ (Ms' = Ms ++ [mirna i]
          ∧ name_mirna st !! r_mirna_name row = None
          ∧ species_name (mirna_species (mirna i)) = r_mirna_species row))
    ∧ (Ts' = Ts
       ∨ (Ts' = Ts ++ [target i]
          ∧ target_set st !! e = None
          ∧ target_name (target i) = r_gene_name row
          ∧ species_name (target_species (target i)) = r_target_species row))
    ∧ (Is' = Is ∨ Is' = Is ++ [i]).
Proof.
  intros I H. unfold get_or_create_interaction in H.
  destruct (interaction_set st !! (r_mirna_name row, e)) as [i0|] eqn:L.
  - injection H as <- <-. exists Ss, Ms, Ts, Is.
    destruct (cache_ok_lookup _ _ _ _ _ (ti_interaction_cache _ _ _ _ _ _ _ I) L).
    split_and!; auto.
  - destruct (get_or_create_mirna row st) as [m st1] eqn:Em.
    destruct (mirna_tables _ _ _ _ _ _ _ _ _ _ I Em)
      as (Ss1 & Ms1 & I1 & Hmn & Hm & HMs & Et1 & Ei1).
    destruct (get_or_create_target emap row e st1) as [t st2] eqn:Et.
    destruct (target_tables _ _ _ _ _ _ _ _ _ _ _ _ I1 Et)
      as (Ss2 & Ts2 & I2 & Hte & Ht & HTs & Em2 & Ei2).
    injection H as <- <-. eexists Ss2, Ms1, Ts2, (Is ++ [_]).
    destruct I2. split_and!; simpl.
    + split; simpl; try done.
      * by rewrite ti_interactions0, app_assoc.
      * apply cache_ok_insert; [done| |by unfold interaction_key; simpl; f_equal].
        by rewrite Ei2, Ei1.
      * intros i Hi. apply elem_of_app in Hi as [Hi|Hi]; [auto|].
        by apply list_elem_of_singleton in Hi as ->.
      * intros ev Hev. apply elem_of_app. left. auto.
      * rewrite fmap_app, length_app, seq_app, ti_interaction_ids0. simpl.
        unfold next_id. by rewrite ti_committed0, ti_interactions0, length_app, Nat.add_assoc.
    + unfold interaction_key. simpl. by f_equal.
    + apply elem_of_app. right. apply list_elem_of_here.
    + apply lookup_insert_eq.
    + intros k [x Hx]. rewrite Ei2, Ei1.
      destruct (decide ((r_mirna_name row, e) = k)) as [<- |Hne]; [congruence|].
      rewrite lookup_insert_ne by done. eauto.
    + destruct HMs as [[-> _]|(-> & ? & ?)]; [by left|by right].
    + destruct HTs as [[-> _]|(-> & HL & ? & ?)]; [by left|right].
      split_and!; try done. by rewrite <- Et1.
    + by right.
Qed.

(** A row the loop has gone through has its miRNA and its gene in the
    dictionaries. *)
Lemma cached_row_parts s0 st Ss Ms Ts Is Es k :
  tables_inv s0 st Ss Ms Ts Is Es →
  is_Some (interaction_set st !! k) →
  is_Some (name_mirna st !! k.1) ∧ is_Some (target_set st !! k.2).
Proof.
  intros I [i L].
  destruct (cache_ok_lookup _ _ _ _ _ (ti_interaction_cache _ _ _ _ _ _ _ I) L)
    as [Hi <-].
  destruct (ti_parts _ _ _ _ _ _ _ I i Hi) as [Hm Ht].
  apply (cache_ok_elem _ _ _ _ (ti_mirna_cache _ _ _ _ _ _ _ I)) in Hm.
  apply (cache_ok_elem _ _ _ _ (ti_target_cache _ _ _ _ _ _ _ I)) in Ht.
  unfold interaction_key. simpl. eauto.
Qed.

Lemma populate_row_tables emap s0 hist st row st' Ss Ms Ts Is Es :
  tables_inv s0 st Ss Ms Ts Is Es →
  rows_inv hist st Ms Ts Is Es →
  populate_row emap st row = Ok st' →
  ∃ Ss' Ms' Ts' Is' Es',
    tables_inv s0 st' Ss' Ms' Ts' Is' Es'
    ∧ rows_inv (hist ++ [row]) st' Ms' Ts' Is' Es'.
Proof.
  intros I R H. unfold populate_row in H.
  destruct (r_entrez_id row) as [z|] eqn:Ez; [|discriminate]. simpl in H.
  destruct (get_or_create_interaction emap row (str z) st) as [i st1] eqn:Ei.
  injection H as <-.
  assert (Hk : row_key row = Some (r_mirna_name row, str z))
    by (unfold row_key; by rewrite Ez).
  destruct (interaction_tables _ _ _ _ _ _ _ _ _ _ _ _ I Ei)
    as (Ss1 & Ms1 & Ts1 & Is1 & I1 & Hik & Hi & Li & Hmono & HMs & HTs & HIs).
  eexists Ss1, Ms1, Ts1, Is1, (Es ++ [_]). split.
  - destruct I1. split; simpl; try done.
    + by rewrite ti_evidences0, app_assoc.
    + intros ev Hev. apply elem_of_app in Hev as [Hev|Hev]; [auto|].
      by apply list_elem_of_singleton in Hev as ->.
  - destruct R as [Rr Re Rt Rm Ri]. split; simpl.
    + apply Forall_app. split.
      * eapply Forall_impl; [exact Rr|]. intros r (k & ? & ?). eauto.
      * repeat constructor. exists (r_mirna_name row, str z). split; [done|eauto].
    + apply Forall2_app; [done|]. repeat constructor; simpl. by rewrite Hik.
    + intros t Ht.
      assert (Hold : t ∈ Ts →
        ∃ first rest,
          filter (λ r, row_gene r = Some (entrez_id t)) (hist ++ [row]) = first :: rest
          ∧ target_name t = r_gene_name first
          ∧ species_name (target_species t) = r_target_species first).
      { intros Hin. destruct (Rt t Hin) as (f & r & Hf & ? & ?).
        exists f, (r ++ filter (λ r, row_gene r = Some (entrez_id t)) [row]).
        by rewrite filter_app, Hf. }
      destruct HTs as [->|(-> & Lt & Hn & Hs)]; [auto|].
      apply elem_of_app in Ht as [Ht|Ht]; [auto|].
      apply list_elem_of_singleton in Ht as ->.
      exists row, []. split; [|done].
      assert (He : entrez_id (target i) = str z) by (by injection Hik).
      rewrite filter_app, filter_none, (filter_cons_True _ row []); [done| |].
      * unfold row_gene. by rewrite Hk, He.
      * apply Forall_forall. intros r Hr Hg.
        rewrite Forall_forall in Rr. destruct (Rr r Hr) as (k & Hrk & Hsome).
        destruct (cached_row_parts _ _ _ _ _ _ _ _ I Hsome) as [_ [t' Ht']].
        unfold row_gene in Hg. rewrite Hrk in Hg. simpl in Hg. congruence.
    + intros m Hm.
      assert (Hold : m ∈ Ms →
        ∃ first rest,
          filter (λ r, r_mirna_name r = mirna_name m ∧ is_Some (row_key r)) (hist ++ [row])
          = first :: rest
          ∧ species_name (mirna_species m) = r_mirna_species first).
      { intros Hin. destruct (Rm m Hin) as (f & r & Hf & ?).
        exists f, (r ++ filter (λ r, r_mirna_name r = mirna_name m ∧ is_Some (row_key r))
                          [row]).
        by rewrite filter_app, Hf. }
      destruct HMs as [->|(-> & Lm & Hs)]; [auto|].
      apply elem_of_app in Hm as [Hm|Hm]; [auto|].
      apply list_elem_of_singleton in Hm as ->.
      exists row, []. split; [|done].
      assert (Hn : mirna_name (mirna i) = r_mirna_name row) by (by injection Hik).
      rewrite filter_app, filter_none, (filter_cons_True _ row []); [done| |].
      * split; [done|]. rewrite Hk. eauto.
      * apply Forall_forall. intros r Hr [Hg _].
        rewrite Forall_forall in Rr. destruct (Rr r Hr) as (k & Hrk & Hsome).
        destruct (cached_row_parts _ _ _ _ _ _ _ _ I Hsome) as [[m' Hm'] _].
        assert (k.1 = r_mirna_name r) as Hk1.
        { unfold row_key in Hrk. destruct (r_entrez_id r); by simplify_eq. }
        congruence.
    + intros i' Hi'. destruct HIs as [-> | ->].
      * destruct (Ri i' Hi') as (r & Hr & ?). exists r. split; [|done].
        apply elem_of_app. by left.
      * apply elem_of_app in Hi' as [Hi'|Hi'].
        -- destruct (Ri i' Hi') as (r & Hr & ?). exists r. split; [|done].
           apply elem_of_app. by left.
        -- apply list_elem_of_singleton in Hi' as ->. exists row. split.
           ++ apply elem_of_app. right. apply list_elem_of_here.
           ++ by rewrite Hik.
Qed.

Lemma populate_loop_tables emap s0 rows : ∀ hist st st' Ss Ms Ts Is Es,
  tables_inv s0 st Ss Ms Ts Is Es →
  rows_inv hist st Ms Ts Is Es →
  populate_loop emap st rows = (st', None) →
  ∃ Ss' Ms' Ts' Is' Es',
    tables_inv s0 st' Ss' Ms' Ts' Is' Es'
    ∧ rows_inv (hist ++ rows) st' Ms' Ts' Is' Es'.
Proof.
  unfold populate_loop.
  induction rows as [|row rows IH]; intros hist st st' Ss Ms Ts Is Es I R H;
    cbn [for_loop] in H.
  - injection H as <-. exists Ss, Ms, Ts, Is, Es. by rewrite app_nil_r.
  - destruct (populate_row emap st row) as [st1|e1] eqn:Er; [|done].
    destruct (populate_row_tables _ _ _ _ _ _ _ _ _ _ _ I R Er)
      as (Ss1 & Ms1 & Ts1 & Is1 & Es1 & I1 & R1).
    destruct (IH _ _ _ _ _ _ _ _ I1 R1 H) as (Ss' & Ms' & Ts' & Is' & Es' & I' & R').
    exists Ss', Ms', Ts', Is', Es'. by rewrite <- app_assoc in R'.
Qed.

Lemma tables_inv_init s0 : tables_inv s0 (init_state s0) [] [] [] [] [].
Proof.
  split; simpl; try done; try (by rewrite app_nil_r); try apply cache_ok_empty;
    intros x Hx; by apply elem_of_nil in Hx.
Qed.

Lemma rows_inv_init s0 : rows_inv [] (init_state s0) [] [] [] [].
Proof.
  split; simpl; try done; try constructor; intros x Hx; by apply elem_of_nil in Hx.
Qed.

(** The run of [populate] on rows whose gene identifiers are integers: it
    commits the session of the last state of the loop. *)
Lemma populate_tables hgnc df s :
  Forall (λ row, is_Some (row_key row)) df →
  ∃ st Ss Ms Ts Is Es,
    populate hgnc df s = (commit (session st), None)
    ∧ tables_inv s st Ss Ms Ts Is Es
    ∧ rows_inv df st Ms Ts Is Es.
Proof.
  intros F. unfold populate.
  destruct (populate_loop_ok (_build_entrez_map hgnc) df (init_state s) F) as [st E].
  rewrite E.
  destruct (populate_loop_tables _ s df [] _ _ _ _ _ _ _
              (tables_inv_init s) (rows_inv_init s) E)
    as (Ss & Ms & Ts & Is & Es & I & R).
  exists st, Ss, Ms, Ts, Is, Es. done.
Qed.

(** ** [populate]: one entity for a name *)

(** The species, miRNAs and targets that a run of [populate] adds to the
    store have pairwise different names, names and gene identifiers: the
    dictionaries [species_set], [name_mirna] and [target_set] let a name
    make one entity. *)
Theorem populate_unique_names hgnc df s :
  Forall (λ row, is_Some (row_key row)) df →
  ∃ s' Ss Ms Ts,
    populate hgnc df s = (s', None)
    ∧ species_table (committed s')
      = species_table (committed s) ++ species_table (pending s) ++ Ss
    ∧ mirna_table (committed s')
      = mirna_table (committed s) ++ mirna_table (pending s) ++ Ms
    ∧ target_table (committed s')
      = target_table (committed s) ++ target_table (pending s) ++ Ts
    ∧ NoDup (species_name <$> Ss)
    ∧ NoDup (mirna_name <$> Ms)
    ∧ NoDup (entrez_id <$> Ts).
Proof.
  intros F. destruct (populate_tables hgnc df s F) as (st & Ss & Ms & Ts & Is & Es & E & I & R).
  exists (commit (session st)), Ss, Ms, Ts. destruct I. simpl.
  rewrite ti_committed0, ti_species0, ti_mirnas0, ti_targets0.
  split_and!; try done; eapply cache_ok_NoDup; eassumption.
Qed.

(** ** [populate]: what the entities of a run refer to *)

(** Every interaction that a run of [populate] adds refers to a miRNA and to
    a target added by the same run, every evidence to an interaction of the
    run, and every miRNA and target to a species of the run: no entity of
    the run refers to a row the store had before. *)
Theorem populate_references hgnc df s :
  Forall (λ row, is_Some (row_key row)) df →
  ∃ s' Ss Ms Ts Is Es,
    populate hgnc df s = (s', None)
    ∧ committed s'
      = store_app (committed s)
          (store_app (pending s)
             {| species_table := Ss; mirna_table := Ms; target_table := Ts;
                interaction_table := Is; evidence_table := Es |})
    ∧ pending s' = empty_store
    ∧ (∀ ev, ev ∈ Es → interaction ev ∈ Is)
    ∧ (∀ i, i ∈ Is → mirna i ∈ Ms ∧ target i ∈ Ts)
    ∧ (∀ m, m ∈ Ms → mirna_species m ∈ Ss)
    ∧ (∀ t, t ∈ Ts → target_species t ∈ Ss).
Proof.
  intros F. destruct (populate_tables hgnc df s F) as (st & Ss & Ms & Ts & Is & Es & E & I & R).
  exists (commit (session st)), Ss, Ms, Ts, Is, Es. destruct I.
  split_and!; try done. unfold commit, store_app. simpl.
  by rewrite ti_committed0, ti_species0, ti_mirnas0, ti_targets0, ti_interactions0,
    ti_evidences0.
Qed.

(** ** [populate]: the first row of a gene and of a miRNA *)

(** A target added by [populate] has the gene name and the species of the
    first row of its gene identifier, and a miRNA the species of the first
    row of its name: what the later rows of the gene or of the miRNA say is
    not read. *)
Theorem populate_first_row_wins hgnc df s :
  Forall (λ row, is_Some (row_key row)) df →
  ∃ s' Ms Ts,
    populate hgnc df s = (s', None)
    ∧ mirna_table (committed s')
      = mirna_table (committed s) ++ mirna_table (pending s) ++ Ms
    ∧ target_table (committed s')
      = target_table (committed s) ++ target_table (pending s) ++ Ts
    ∧ (∀ t, t ∈ Ts →
         ∃ first rest,
           filter (λ r, row_gene r = Some (entrez_id t)) df = first :: rest
           ∧ target_name t = r_gene_name first
           ∧ species_name (target_species t) = r_target_species first)
    ∧ (∀ m, m ∈ Ms →
         ∃ first rest,
           filter (λ r, r_mirna_name r = mirna_name m ∧ is_Some (row_key r)) df
           = first :: rest
           ∧ species_name (mirna_species m) = r_mirna_species first).
Proof.
  intros F. destruct (populate_tables hgnc df s F) as (st & Ss & Ms & Ts & Is & Es & E & I & R).
  exists (commit (session st)), Ms, Ts. destruct I, R. simpl.
  rewrite ti_committed0, ti_mirnas0, ti_targets0. done.
Qed.

(** ** [populate]: the evidence of a row *)

(** The evidence records that [populate] adds are, in the order of the
    rows, one for each row, with the experiment, the support type and the
    reference of the row, each attached to an interaction added by the run
    whose miRNA name and gene identifier are those of the row. *)
Theorem populate_evidence_per_row hgnc df s :
  Forall (λ row, is_Some (row_key row)) df →
  ∃ s' Is Es,
    populate hgnc df s = (s', None)
    ∧ interaction_table (committed s')
      = interaction_table (committed s) ++ interaction_table (pending s) ++ Is
    ∧ evidence_table (committed s')
      = evidence_table (committed s) ++ evidence_table (pending s) ++ Es
    ∧ Forall2 (λ ev row,
                 experiment ev = r_exp row
                 ∧ support ev = r_sup_type row
                 ∧ reference ev = r_pubmed row
                 ∧ interaction ev ∈ Is
                 ∧ row_key row = Some (mirna_name (mirna (interaction ev)),
                                       entrez_id (target (interaction ev))))
        Es df.
Proof.
  intros F. destruct (populate_tables hgnc df s F) as (st & Ss & Ms & Ts & Is & Es & E & I & R).
  exists (commit (session st)), Is, Es. destruct I, R. simpl.
  rewrite ti_committed0, ti_interactions0, ti_evidences0. split_and!; try done.
  apply Forall2_same_length_lookup. split; [by eapply Forall2_length|].
  intros n ev row Hev Hrow.
  destruct (Forall2_lookup_lr _ _ _ _ _ _ ri_evidences0 Hev Hrow) as (? & ? & ? & ?).
  split_and!; try done. apply ti_refs0. by eapply list_elem_of_lookup_2.
Qed.

(** ** [populate] and the queries *)

(** The rows of the store after [populate] on a store without rows. *)
Lemma populate_new_session hgnc df :
  Forall (λ row, is_Some (row_key row)) df →
  ∃ st Ss Ms Ts Is Es,
    populate hgnc df new_session
    = ({| committed := {| species_table := Ss; mirna_table := Ms; target_table := Ts;
                          interaction_table := Is; evidence_table := Es |};
          pending := empty_store |}, None)
    ∧ tables_inv new_session st Ss Ms Ts Is Es
    ∧ rows_inv df st Ms Ts Is Es.
Proof.
  intros F.
  destruct (populate_tables hgnc df new_session F)
    as (st & Ss & Ms & Ts & Is & Es & E & I & R).
  exists st, Ss, Ms, Ts, Is, Es. split_and!; try done.
  rewrite E. destruct I. unfold commit, store_app.
  by rewrite ti_committed0, ti_species0, ti_mirnas0, ti_targets0, ti_interactions0,
    ti_evidences0.
Qed.

Lemma one_or_none_option_list {A} (o : option A) : one_or_none (option_list o) = Ok o.
Proof. by destruct o. Qed.

(** After [populate] on a store without rows, the query of a target by the
    gene identifier of a row and the query of a miRNA by the name of a row
    find one entity, with this identifier and this name, and raise nothing;
    for a gene identifier or a name of no row they find nothing. *)
Theorem populate_then_query hgnc df :
  Forall (λ row, is_Some (row_key row)) df →
  ∃ s',
    populate hgnc df new_session = (s', None)
    ∧ (∀ row name gene, row ∈ df → row_key row = Some (name, gene) →
         ∃ t m,
           query_target_by_entrez_id (committed s') gene = Ok (Some t)
           ∧ entrez_id t = gene
           ∧ query_mirna_by_mirtarbase_name (committed s') name = Ok (Some m)
           ∧ mirna_name m = name)
    ∧ (∀ gene, Some gene ∉ row_gene <$> df →
         query_target_by_entrez_id (committed s') gene = Ok None)
    ∧ (∀ name, name ∉ r_mirna_name <$> df →
         query_mirna_by_mirtarbase_name (committed s') name = Ok None).
Proof.
  intros F.
  destruct (populate_new_session hgnc df F) as (st & Ss & Ms & Ts & Is & Es & E & I & R).
  eexists. split; [exact E|].
  unfold query_target_by_entrez_id, query_mirna_by_mirtarbase_name. simpl.
  pose proof (ti_target_cache _ _ _ _ _ _ _ I) as Ct.
  pose proof (ti_mirna_cache _ _ _ _ _ _ _ I) as Cm.
  split_and!.
  - intros row name gene Hrow Hk.
    pose proof (ri_rows _ _ _ _ _ _ R) as Rr. rewrite Forall_forall in Rr.
    destruct (Rr row Hrow) as (k & Hk' & Hsome).
    assert (k = (name, gene)) as -> by congruence.
    destruct (cached_row_parts _ _ _ _ _ _ _ _ I Hsome) as [[m Lm] [t Lt]].
    simpl in *. exists t, m.
    rewrite (Ct gene), (Cm name), Lt, Lm. simpl.
    destruct (cache_ok_lookup _ _ _ _ _ Ct Lt), (cache_ok_lookup _ _ _ _ _ Cm Lm). done.
  - intros gene Hg. rewrite (Ct gene).
    destruct (target_set st !! gene) as [t|] eqn:Lt; [|done]. exfalso. apply Hg.
    destruct (cache_ok_lookup _ _ _ _ _ Ct Lt) as [Ht <-].
    destruct (ri_targets _ _ _ _ _ _ R t Ht) as (first & rest & Hf & _).
    assert (Hin : first ∈ filter (λ r, row_gene r = Some (entrez_id t)) df)
      by (rewrite Hf; apply list_elem_of_here).
    apply list_elem_of_filter in Hin as [Hgene Hin].
    apply list_elem_of_fmap. by exists first.
  - intros name Hn. rewrite (Cm name).
    destruct (name_mirna st !! name) as [m|] eqn:Lm; [|done]. exfalso. apply Hn.
    destruct (cache_ok_lookup _ _ _ _ _ Cm Lm) as [Hm <-].
    destruct (ri_mirnas _ _ _ _ _ _ R m Hm) as (first & rest & Hf & _).
    assert (Hin : first ∈ filter (λ r, r_mirna_name r = mirna_name m ∧ is_Some (row_key r))
                           df)
      by (rewrite Hf; apply list_elem_of_here).
    apply list_elem_of_filter in Hin as [[Hname _] Hin].
    apply list_elem_of_fmap. by exists first.
Qed.

(** ** [populate] and the counts *)

Lemma same_elements_length {A B} `{EqDecision B} (f : A → B) (l : list A) (k : list B) :
  NoDup (f <$> l) → (∀ y, y ∈ f <$> l ↔ y ∈ k) → length l = length (remove_dups k).
Proof.
  intros ND Hel. rewrite <- (length_fmap f l). apply Permutation_length.
  apply NoDup_Permutation; [done|apply NoDup_remove_dups|].
  intros y. by rewrite elem_of_remove_dups.
Qed.

(** After [populate] on a store without rows, [summarize] counts as many
    evidence records as there are rows, as many interactions as there are
    different pairs of a miRNA name and a gene identifier, as many miRNAs as
    there are different names and as many targets as there are different
    gene identifiers; and [is_populated] holds exactly when there is a row. *)
Theorem populate_then_summarize hgnc df :
  Forall (λ row, is_Some (row_key row)) df →
  ∃ s',
    populate hgnc df new_session = (s', None)
    ∧ sum_evidences (summarize (committed s')) = length df
    ∧ sum_interactions (summarize (committed s'))
      = length (remove_dups (omap row_key df))
    ∧ sum_mirnas (summarize (committed s'))
      = length (remove_dups (r_mirna_name <$> df))
    ∧ sum_targets (summarize (committed s'))
      = length (remove_dups (omap row_gene df))
    ∧ (is_populated (committed s') = true ↔ df ≠ []).
Proof.
  intros F.
  destruct (populate_new_session hgnc df F) as (st & Ss & Ms & Ts & Is & Es & E & I & R).
  eexists. split; [exact E|]. simpl.
  unfold count_evidences, count_interactions, count_mirnas, count_targets, is_populated.
  simpl.
  pose proof (ri_rows _ _ _ _ _ _ R) as Rr. rewrite Forall_forall in Rr.
  assert (Hmirnas : length Ms = length (remove_dups (r_mirna_name <$> df))).
  { apply (same_elements_length mirna_name).
    - eapply cache_ok_NoDup, I.
    - intros name. rewrite !list_elem_of_fmap. split.
      + intros (m & -> & Hm).
        destruct (ri_mirnas _ _ _ _ _ _ R m Hm) as (first & rest & Hf & _).
        assert (Hin : first ∈ filter (λ r, r_mirna_name r = mirna_name m
                                           ∧ is_Some (row_key r)) df)
          by (rewrite Hf; apply list_elem_of_here).
        apply list_elem_of_filter in Hin as [[Hname _] Hin]. by exists first.
      + intros (row & -> & Hrow). destruct (Rr row Hrow) as (k & Hk & Hsome).
        destruct (cached_row_parts _ _ _ _ _ _ _ _ I Hsome) as [[m Lm] _].
        destruct (cache_ok_lookup _ _ _ _ _ (ti_mirna_cache _ _ _ _ _ _ _ I) Lm)
          as [Hm Hname].
        exists m. split; [|done]. rewrite Hname.
        unfold row_key in Hk. destruct (r_entrez_id row); by simplify_eq. }
  split_and!.
  - eapply Forall2_length, (ri_evidences _ _ _ _ _ _ R).
  - apply (same_elements_length interaction_key).
    + eapply cache_ok_NoDup, I.
    + intros k. rewrite list_elem_of_fmap, list_elem_of_omap. split.
      * intros (i & -> & Hi). apply (ri_interactions _ _ _ _ _ _ R i Hi).
      * intros (row & Hrow & Hk). destruct (Rr row Hrow) as (k' & Hk' & [i Li]).
        assert (k' = k) as -> by congruence.
        destruct (cache_ok_lookup _ _ _ _ _ (ti_interaction_cache _ _ _ _ _ _ _ I) Li)
          as [Hi Hkey].
        by exists i.
  - done.
  - apply (same_elements_length entrez_id).
    + eapply cache_ok_NoDup, I.
    + intros gene. rewrite list_elem_of_fmap, list_elem_of_omap. split.
      * intros (t & -> & Ht).
        destruct (ri_targets _ _ _ _ _ _ R t Ht) as (first & rest & Hf & _).
        assert (Hin : first ∈ filter (λ r, row_gene r = Some (entrez_id t)) df)
          by (rewrite Hf; apply list_elem_of_here).
        apply list_elem_of_filter in Hin as [Hgene Hin]. by exists first.
      * intros (row & Hrow & Hg). destruct (Rr row Hrow) as (k & Hk & Hsome).
        destruct (cached_row_parts _ _ _ _ _ _ _ _ I Hsome) as [_ [t Lt]].
        destruct (cache_ok_lookup _ _ _ _ _ (ti_target_cache _ _ _ _ _ _ _ I) Lt)
          as [Ht Hgene].
        exists t. split; [|done]. rewrite Hgene.
        unfold row_gene in Hg. rewrite Hk in Hg. by simplify_eq/=.
  - unfold count_mirnas. cbn [mirna_table]. rewrite Hmirnas.
    destruct df as [|row df]; [by split|]. split; [done|intros _].
    assert (Hin : r_mirna_name row ∈ remove_dups (r_mirna_name <$> row :: df))
      by apply elem_of_remove_dups, list_elem_of_here.
    destruct (remove_dups (r_mirna_name <$> row :: df)); [|done].
    by apply elem_of_nil in Hin.
Qed.

(** ** [enrich_rnas]: what it adds and what it leaves *)

Section EnrichFrame.

Context {C : Collaborators}.

Lemma extends_refl db g0 g : extends db g0 g g.
Proof.
  split_and!; try done. exists [], []. by rewrite !app_nil_r.
Qed.

Lemma extends_trans db g0 g1 g2 g3 :
  extends db g0 g1 g2 → extends db g0 g2 g3 → extends db g0 g1 g3.
Proof.
  intros (A1 & B1 & C1 & D1 & n1 & e1 & N1 & E1 & Fn1 & Fe1)
         (A2 & B2 & C2 & D2 & n2 & e2 & N2 & E2 & Fn2 & Fe2).
  split_and!; try congruence. exists (n1 ++ n2), (e1 ++ e2).
  rewrite N2, N1, E2, E1, !app_assoc. split_and!; try done; by apply Forall_app.
Qed.

Lemma add_qualified_edge_extends db g0 g i node data ev cit ann :
  i ∈ interaction_table db →
  (node, data) ∈ g_nodes g0 →
  recognized (node, data) →
  extends db g0 g
    (add_qualified_edge g (ByData (mirna_as_bel (mirna i))) (ByNode node)
       DIRECTLY_DECREASES ev cit ann).
Proof.
  intros Hi Hn Hr. unfold add_qualified_edge. cbn [resolve_endpoint].
  unfold add_node_from_data.
  destruct (decide (to_tuple (mirna_as_bel (mirna i)) ∈ (g_nodes g).*1));
    split_and!; simpl; try done.
  - eexists [], [_]. rewrite app_nil_r. split_and!; try done.
    repeat constructor. by exists data.
  - eexists [_], [_]. split_and!; try done; repeat constructor;
      [by exists i|by exists data].
Qed.

Lemma add_target_edges_extends db g0 g node data t :
  (node, data) ∈ g_nodes g0 →
  recognized (node, data) →
  extends db g0 g (add_target_edges db g node t).
Proof.
  intros Hn Hr. unfold add_target_edges.
  assert (Hsub : ∀ i, i ∈ interactions db t → i ∈ interaction_table db).
  { intros i Hi. unfold interactions in Hi. by apply list_elem_of_filter in Hi as [_ ?]. }
  revert Hsub. generalize (interactions db t) as ints. intros ints. revert g.
  induction ints as [|i ints IH]; intros g Hsub; simpl; [apply extends_refl|].
  eapply extends_trans; [|apply IH; intros; apply Hsub; by apply list_elem_of_further].
  assert (Hi : i ∈ interaction_table db) by apply Hsub, list_elem_of_here.
  clear IH Hsub. generalize (evidences db i) as evs. intros evs. revert g.
  induction evs as [|ev evs IHe]; intros g; simpl; [apply extends_refl|].
  eapply extends_trans; [|apply IHe]. by eapply add_qualified_edge_extends.
Qed.

Lemma enrich_rna_target_recognized db namespace identifier name t :
  enrich_rna_target db namespace identifier name = Ok (Some t) →
  lower namespace = lower "HGNC" ∨ lower namespace ∈ VALID_ENTREZ_NAMESPACES.
Proof. unfold enrich_rna_target. repeat case_decide; auto. done. Qed.

Lemma enrich_rna_extends db g0 g node data g' :
  (node, data) ∈ g_nodes g0 →
  enrich_rna db g (node, data) = Ok g' →
  extends db g0 g g'.
Proof.
  intros Hn. unfold enrich_rna.
  case_decide as Hf; [intros [= <-]; apply extends_refl|].
  destruct (d_namespace data) as [ns|] eqn:Hns; [|intros [= <-]; apply extends_refl].
  destruct (enrich_rna_target db ns (d_identifier data) (d_name data)) as [[t|]|e] eqn:Et;
    simpl; intros [= <-]; [|apply extends_refl].
  apply (add_target_edges_extends _ _ _ _ data); [done|].
  split; simpl.
  - by destruct (decide (d_function data = RNA)).
  - exists ns. split; [done|]. by eapply enrich_rna_target_recognized.
Qed.

Lemma enrich_rnas_loop_extends db g0 nodes : ∀ g g' e,
  (∀ nd, nd ∈ nodes → nd ∈ g_nodes g0) →
  for_loop (enrich_rna db) nodes g = (g', e) →
  extends db g0 g g'.
Proof.
  induction nodes as [|[n d] nodes IH]; intros g g' e Hsub H; cbn [for_loop] in H.
  - injection H as <- _. apply extends_refl.
  - destruct (enrich_rna db g (n, d)) as [g1|e1] eqn:E1.
    + eapply extends_trans.
      * eapply enrich_rna_extends; [|exact E1]. apply Hsub, list_elem_of_here.
      * eapply IH; [|exact H]. intros nd Hnd. by apply Hsub, list_elem_of_further.
    + injection H as <- _. apply extends_refl.
Qed.

(** Whether [enrich_rnas] ends with an exception or not, the graph it leaves
    has the name, the version, the namespaces, the nodes and the edges of
    the graph it received, in their order, and after them new nodes, which
    are miRNAs of interactions of the store, and new edges, each with the
    relation [DIRECTLY_DECREASES] and ending in an RNA node of the received
    graph whose namespace is HGNC or an Entrez alias. *)
Theorem enrich_rnas_only_adds db graph :
  let graph' := (enrich_rnas db graph).1 in
  graph_name graph' = graph_name graph
  ∧ graph_version graph' = graph_version graph
  ∧ namespace_url graph' = namespace_url graph
  ∧ namespace_pattern graph' = namespace_pattern graph
  ∧ ∃ new_nodes new_edges,
      g_nodes graph' = g_nodes graph ++ new_nodes
      ∧ g_edges graph' = g_edges graph ++ new_edges
      ∧ Forall (λ nd, ∃ i, i ∈ interaction_table db
                           ∧ nd = (to_tuple (mirna_as_bel (mirna i)),
                                   mirna_as_bel (mirna i))) new_nodes
      ∧ Forall (λ e, ∃ data, (e_target e, data) ∈ g_nodes graph
                             ∧ recognized (e_target e, data)
                             ∧ e_relation e = DIRECTLY_DECREASES) new_edges.
Proof.
  unfold enrich_rnas.
  destruct (for_loop (enrich_rna db) (g_nodes graph) graph) as [g' e] eqn:E.
  by apply (enrich_rnas_loop_extends db graph) in E.
Qed.

End EnrichFrame.

(** ** [enrich_rnas]: its exceptions *)

Section EnrichExceptions.

Context {C : Collaborators}.

Lemma one_or_none_raise {A} (l : list A) e :
  one_or_none l = Raise e → e = MultipleResultsFound ∧ (2 ≤ length l)%nat.
Proof. destruct l as [|x [|y l]]; intros [= <-]. split; [done|simpl; lia]. Qed.

Lemma query_entrez_raise db v e :
  query_target_by_entrez_id db v = Raise e →
  e = MultipleResultsFound ∧ ¬ unique_column (λ t, Some (entrez_id t)) db.
Proof.
  intros H. apply one_or_none_raise in H as [-> Hl]. split; [done|].
  intros Hu. specialize (Hu v).
  rewrite (list_filter_iff _ (λ t, entrez_id t = v)) in Hu; [lia|].
  intros t. split; congruence.
Qed.

Lemma query_hgnc_identifier_raise db v e :
  query_target_by_hgnc_identifier db v = Raise e →
  e = MultipleResultsFound ∧ ¬ unique_column hgnc_id db.
Proof.
  intros H. apply one_or_none_raise in H as [-> Hl]. split; [done|].
  intros Hu. specialize (Hu v). simpl in *. lia.
Qed.

Lemma query_hgnc_symbol_raise db v e :
  query_target_by_hgnc_symbol db v = Raise e →
  e = MultipleResultsFound ∧ ¬ unique_column hgnc_symbol db.
Proof.
  intros H. apply one_or_none_raise in H as [-> Hl]. split; [done|].
  intros Hu. specialize (Hu v). simpl in *. lia.
Qed.

Lemma enrich_rna_unresolvable db g nd :
  unresolvable nd → enrich_rna db g nd = Raise IndexError.
Proof.
  destruct nd as [node data]. intros [[Hf (ns & Hn & Hns)] [Hi Hna]]. simpl in *.
  unfold enrich_rna, enrich_rna_target, _enrich_rna_handle_hgnc,
    _enrich_rna_handle_entrez.
  rewrite decide_False by (by intros ?). rewrite Hn, Hi, Hna.
  destruct Hns as [Hh|Hv].
  - by rewrite decide_True by done.
  - case_decide; [done|]. by rewrite decide_True by done.
Qed.

Lemma enrich_rna_raise db g nd e :
  enrich_rna db g nd = Raise e →
  (e = IndexError ∧ unresolvable nd)
  ∨ (e = MultipleResultsFound ∧ ¬ unique_columns db).
Proof.
  destruct nd as [node data]. unfold enrich_rna.
  case_decide as Hf; [done|].
  destruct (d_namespace data) as [ns|] eqn:Hn; [|done].
  destruct (enrich_rna_target db ns (d_identifier data) (d_name data)) as [t|e'] eqn:Et;
    simpl; intros [= <-].
  assert (Hfun : d_function data = RNA) by (by destruct (decide (d_function data = RNA))).
  unfold enrich_rna_target, _enrich_rna_handle_hgnc, _enrich_rna_handle_entrez in Et.
  unfold unique_columns.
  assert (Hrec : lower ns = lower "HGNC" ∨ lower ns ∈ VALID_ENTREZ_NAMESPACES →
                 truthy (d_identifier data) = None → truthy (d_name data) = None →
                 unresolvable (node, data)).
  { intros ? ? ?. split; [|done]. split; [done|]. simpl. by exists ns. }
  repeat case_decide; try done;
    destruct (truthy (d_identifier data)) as [i|] eqn:Hi;
    [ | destruct (truthy (d_name data)) as [n|] eqn:Hna | | 
      destruct (truthy (d_name data)) as [n|] eqn:Hna ];
    try (injection Et as <-; left; split; [done|]; apply Hrec; auto; fail);
    right;
    first [ apply query_hgnc_identifier_raise in Et as [-> ?]
          | apply query_hgnc_symbol_raise in Et as [-> ?]
          | apply query_entrez_raise in Et as [-> ?] ];
    split; [done|tauto|..]; try done; tauto.
Qed.

Lemma enrich_rnas_loop_none db nodes : ∀ g g',
  for_loop (enrich_rna db) nodes g = (g', None) →
  Forall (λ nd, ¬ unresolvable nd) nodes.
Proof.
  induction nodes as [|nd nodes IH]; intros g g' H; cbn [for_loop] in H; [constructor|].
  destruct (enrich_rna db g nd) as [g1|e1] eqn:E1; [|done].
  constructor; [|by eapply IH].
  intros Hu. by rewrite (enrich_rna_unresolvable _ _ _ Hu) in E1.
Qed.

Lemma enrich_rnas_loop_raise db nodes : ∀ g g' e,
  for_loop (enrich_rna db) nodes g = (g', Some e) →
  (e = IndexError ∧ Exists unresolvable nodes)
  ∨ (e = MultipleResultsFound ∧ ¬ unique_columns db).
Proof.
  induction nodes as [|nd nodes IH]; intros g g' e H; cbn [for_loop] in H; [done|].
  destruct (enrich_rna db g nd) as [g1|e1] eqn:E1.
  - destruct (IH _ _ _ H) as [[-> ?]|?]; [left|by right].
    split; [done|]. by apply Exists_cons_tl.
  - injection H as <- <-.
    destruct (enrich_rna_raise _ _ _ _ E1) as [[-> ?]|?]; [left|by right].
    split; [done|]. by apply Exists_cons_hd.
Qed.

(** [enrich_rnas] ends with no other exception than [IndexError] and
    [MultipleResultsFound]. It ends with [IndexError] only when the graph
    has an RNA node of the namespace HGNC or of an Entrez alias with neither
    identifier nor name, and never without an exception when it has one.
    When no two targets of the store have the same [entrez_id], [hgnc_id]
    or [hgnc_symbol], it raises [IndexError] exactly when the graph has
    such a node and nothing otherwise. *)
Theorem enrich_rnas_exceptions db graph :
  (∀ e, (enrich_rnas db graph).2 = Some e →
        e = IndexError ∨ e = MultipleResultsFound)
  ∧ ((enrich_rnas db graph).2 = Some IndexError →
       Exists unresolvable (g_nodes graph))
  ∧ ((enrich_rnas db graph).2 = None →
       Forall (λ nd, ¬ unresolvable nd) (g_nodes graph))
  ∧ (unique_column (λ t, Some (entrez_id t)) db →
     unique_column hgnc_id db →
     unique_column hgnc_symbol db →
       (Exists unresolvable (g_nodes graph) →
          (enrich_rnas db graph).2 = Some IndexError)
       ∧ (Forall (λ nd, ¬ unresolvable nd) (g_nodes graph) →
            (enrich_rnas db graph).2 = None)).
Proof.
  unfold enrich_rnas.
  destruct (for_loop (enrich_rna db) (g_nodes graph) graph) as [g' r] eqn:E. simpl.
  split_and!.
  - intros e ->. apply enrich_rnas_loop_raise in E as [[-> _]|[-> _]]; auto.
  - intros ->. by apply enrich_rnas_loop_raise in E as [[_ ?]|[? _]].
  - intros ->. by eapply enrich_rnas_loop_none.
  - intros U1 U2 U3. assert (U : unique_columns db) by done. split.
    + intros Hex. destruct r as [e|].
      * by apply enrich_rnas_loop_raise in E as [[-> _]|[_ ?]].
      * apply enrich_rnas_loop_none in E. apply Exists_exists in Hex as (nd & Hnd & Hu).
        rewrite Forall_forall in E. by destruct (E nd Hnd).
    + intros Hall. destruct r as [e|]; [|done].
      apply enrich_rnas_loop_raise in E as [[_ Hex]|[_ ?]]; [|done].
      apply Exists_exists in Hex as (nd & Hnd & Hu).
      rewrite Forall_forall in Hall. by destruct (Hall nd Hnd).
Qed.

End EnrichExceptions.

(** ** [populate], then [enrich_rnas] *)

Lemma filter_ext_in {A} (P Q : A → Prop) `{∀ x, Decision (P x)} `{∀ x, Decision (Q x)}
    (l : list A) :
  (∀ x, x ∈ l → (P x ↔ Q x)) → filter P l = filter Q l.
Proof.
  induction l as [|x l IH]; intros Hl; [done|].
  rewrite !filter_cons, IH by (intros y Hy; apply Hl; by apply list_elem_of_further).
  destruct (decide (P x)) as [HP|HP], (decide (Q x)) as [HQ|HQ]; try done;
    destruct (Hl x (list_elem_of_here _ _)); tauto.
Qed.

Lemma filter_or_Permutation {A} (P Q : A → Prop) `{∀ x, Decision (P x)}
    `{∀ x, Decision (Q x)} (l : list A) :
  (∀ x, P x → Q x → False) →
  filter P l ++ filter Q l ≡ₚ filter (λ x, P x ∨ Q x) l.
Proof.
  intros Hd. induction l as [|x l IH]; [done|].
  rewrite !filter_cons.
  destruct (decide (P x)) as [HP|HP], (decide (Q x)) as [HQ|HQ].
  - destruct (Hd x HP HQ).
  - rewrite decide_True by auto. simpl. by rewrite IH.
  - rewrite decide_True by auto. by rewrite <- Permutation_middle, IH.
  - rewrite decide_False by tauto. done.
Qed.

(** The elements of a list by the value of a function, for the values of a
    list without repetition. *)
Lemma flat_map_filter {A B} `{EqDecision B} (f : A → B) (l : list A) (ks : list B) :
  NoDup ks →
  flat_map (λ k, filter (λ x, f x = k) l) ks ≡ₚ filter (λ x, f x ∈ ks) l.
Proof.
  induction 1 as [|k ks Hk ND IH]; simpl.
  - rewrite filter_none; [done|]. apply Forall_forall. intros x _ Hx.
    by apply elem_of_nil in Hx.
  - rewrite IH, filter_or_Permutation.
    + erewrite list_filter_iff; [done|]. intros x. rewrite elem_of_cons. done.
    + intros x <- Hx. done.
Qed.

Lemma Forall2_filter_length {A B} (R : A → B → Prop) (P : A → Prop) (Q : B → Prop)
    `{∀ x, Decision (P x)} `{∀ y, Decision (Q y)} (l : list A) (k : list B) :
  Forall2 R l k → (∀ x y, R x y → (P x ↔ Q y)) →
  length (filter P l) = length (filter Q k).
Proof.
  intros HF HR. induction HF as [|x y l k Hxy _ IH]; [done|].
  rewrite !filter_cons.
  destruct (decide (P x)) as [HP|HP], (decide (Q y)) as [HQ|HQ]; simpl;
    try (by rewrite IH); destruct (HR x y Hxy); tauto.
Qed.

Lemma NoDup_fmap_inj_on {A B} (f : A → B) (l : list A) x y :
  NoDup (f <$> l) → x ∈ l → y ∈ l → f x = f y → x = y.
Proof.
  induction l as [|z l IH]; simpl; intros ND Hx Hy Hf; [by apply elem_of_nil in Hx|].
  apply NoDup_cons in ND as [Hz ND].
  apply elem_of_cons in Hx as [->|Hx], Hy as [->|Hy]; auto.
  - destruct Hz. rewrite Hf. apply list_elem_of_fmap. by exists y.
  - destruct Hz. rewrite <- Hf. apply list_elem_of_fmap. by exists x.
Qed.

Section PopulateThenEnrich.

Context {C : Collaborators}.

(** In the store of a run of [populate] on a store without rows,
    [target.interactions] and [interaction.evidences] go by the objects. *)
Lemma populated_relations st Ss Ms Ts Is Es :
  tables_inv new_session st Ss Ms Ts Is Es →
  let db := {| species_table := Ss; mirna_table := Ms; target_table := Ts;
               interaction_table := Is; evidence_table := Es |} in
  (∀ t, t ∈ Ts →
     interactions db t = filter (λ i, entrez_id (target i) = entrez_id t) Is)
  ∧ (∀ i, i ∈ Is → evidences db i = filter (λ ev, interaction ev = i) Es)
  ∧ NoDup Is.
Proof.
  intros I db.
  assert (NDt : NoDup (target_id <$> Ts)).
  { rewrite (ti_target_ids _ _ _ _ _ _ _ I). apply NoDup_seq. }
  assert (NDi : NoDup (interaction_id <$> Is)).
  { rewrite (ti_interaction_ids _ _ _ _ _ _ _ I). apply NoDup_seq. }
  split_and!.
  - intros t Ht. unfold interactions. simpl. apply filter_ext_in. intros i Hi.
    destruct (ti_parts _ _ _ _ _ _ _ I i Hi) as [_ Hti]. split.
    + intros Hid. by rewrite (NoDup_fmap_inj_on target_id Ts _ _ NDt Hti Ht Hid).
    + intros He. f_equal.
      apply (NoDup_fmap_inj_on entrez_id Ts); try done.
      eapply cache_ok_NoDup, I.
  - intros i Hi. unfold evidences. simpl. apply filter_ext_in. intros ev Hev.
    pose proof (ti_refs _ _ _ _ _ _ _ I ev Hev) as Hei. split.
    + intros Hid. by apply (NoDup_fmap_inj_on interaction_id Is).
    + by intros ->.
  - by eapply NoDup_fmap_1.
Qed.

Lemma target_edges_by_object db node Es L :
  (∀ i, i ∈ L → evidences db i = filter (λ ev, interaction ev = i) Es) →
  flat_map (λ i, map (mti_edge node i) (evidences db i)) L
  = (λ ev, mti_edge node (interaction ev) ev)
      <$> flat_map (λ i, filter (λ ev, interaction ev = i) Es) L.
Proof.
  induction L as [|i L IH]; intros HL; simpl; [done|].
  rewrite fmap_app, IH by (intros; apply HL; by apply list_elem_of_further).
  f_equal. rewrite HL by apply list_elem_of_here.
  apply Forall_fmap_ext_1, Forall_forall. intros ev Hev.
  apply list_elem_of_filter in Hev as [-> _]. done.
Qed.

(** After [populate] on a store without rows, the iteration of [enrich_rnas]
    on an RNA node of an Entrez alias whose identifier, or whose name when
    it has no identifier, is a gene identifier raises nothing and adds the
    edges of the evidence records of the store whose interaction has a
    target with this gene identifier, in some order; they are as many as
    the rows of the gene. *)
Theorem populate_then_enrich_rna hgnc df g node data namespace gene :
  Forall (λ row, is_Some (row_key row)) df →
  d_function data = RNA →
  d_namespace data = Some namespace →
  lower namespace ≠ lower "HGNC" →
  lower namespace ∈ VALID_ENTREZ_NAMESPACES →
  truthy (d_identifier data) = Some gene
  ∨ (truthy (d_identifier data) = None ∧ truthy (d_name data) = Some gene) →
  ∃ g' new,
    enrich_rna (committed (populate hgnc df new_session).1) g (node, data) = Ok g'
    ∧ g_edges g' = g_edges g ++ new
    ∧ new ≡ₚ (λ ev, mti_edge node (interaction ev) ev)
             <$> filter (λ ev, entrez_id (target (interaction ev)) = gene)
                   (evidence_table (committed (populate hgnc df new_session).1))
    ∧ length new = length (filter (λ row, row_gene row = Some gene) df).
Proof.
  intros F Hf Hn Hh Hv Hgene.
  destruct (populate_new_session hgnc df F) as (st & Ss & Ms & Ts & Is & Es & E & I & R).
  rewrite E. simpl.
  set (db := {| species_table := Ss; mirna_table := Ms; target_table := Ts;
                interaction_table := Is; evidence_table := Es |}).
  destruct (populated_relations _ _ _ _ _ _ I) as (Hints & Hevs & NDI). fold db in Hints, Hevs.
  pose proof (ti_target_cache _ _ _ _ _ _ _ I) as Ct.
  assert (Hq : enrich_rna db g (node, data)
               = Ok (enrich_rna_with_target db g node (target_set st !! gene))).
  { unfold enrich_rna, enrich_rna_target, _enrich_rna_handle_entrez.
    rewrite decide_False by (by intros ?). rewrite Hn.
    rewrite decide_False, decide_True by done.
    assert (Hquery : query_target_by_entrez_id db gene = Ok (target_set st !! gene)).
    { unfold query_target_by_entrez_id. simpl. rewrite (Ct gene).
      apply one_or_none_option_list. }
    destruct Hgene as [-> |[-> ->]]; by rewrite Hquery. }
  assert (Hcount : length (filter (λ ev, entrez_id (target (interaction ev)) = gene) Es)
                   = length (filter (λ row, row_gene row = Some gene) df)).
  { apply (Forall2_filter_length evidence_of_row); [apply R|].
    intros ev row (_ & _ & _ & Hk). unfold row_gene. rewrite Hk. simpl.
    split; congruence. }
  destruct (target_set st !! gene) as [t|] eqn:Lt; simpl in Hq.
  - destruct (cache_ok_lookup _ _ _ _ _ Ct Lt) as [Ht Hte].
    exists (add_target_edges db g node t), (target_edges db node t).
    split; [done|]. split; [apply add_target_edges_edges|].
    assert (Hperm : target_edges db node t
                    ≡ₚ (λ ev, mti_edge node (interaction ev) ev)
                       <$> filter (λ ev, entrez_id (target (interaction ev)) = gene) Es).
    { unfold target_edges. rewrite (Hints t Ht), Hte.
      rewrite (target_edges_by_object db node Es).
      - apply fmap_Permutation. rewrite flat_map_filter by by apply NoDup_filter.
        erewrite filter_ext_in; [done|]. intros ev Hev. simpl.
        rewrite list_elem_of_filter. split; [tauto|]. intros He. split; [done|].
        by apply (ti_refs _ _ _ _ _ _ _ I).
      - intros i Hi. apply Hevs. by apply list_elem_of_filter in Hi as [_ ?]. }
    split; [done|]. by rewrite Hperm, length_fmap.
  - exists g, []. rewrite app_nil_r.
    assert (Hnone : filter (λ ev, entrez_id (target (interaction ev)) = gene) Es = []).
    { apply filter_none, Forall_forall. intros ev Hev He.
      pose proof (ti_refs _ _ _ _ _ _ _ I ev Hev) as Hi.
      destruct (ti_parts _ _ _ _ _ _ _ I _ Hi) as [_ Ht].
      apply (cache_ok_elem _ _ _ _ Ct) in Ht. congruence. }
    rewrite <- Hcount, Hnone. done.
Qed.

End PopulateThenEnrich.

(** ** [populate]: the session after an exception *)

Lemma for_loop_app {S A} (body : S → A → result S) (l1 l2 : list A) (s : S) :
  for_loop body (l1 ++ l2) s
  = match for_loop body l1 s with
    | (s1, None) => for_loop body l2 s1
    | (s1, Some e) => (s1, Some e)
    end.
Proof.
  revert s. induction l1 as [|x l1 IH]; intros s; simpl; [done|].
  destruct (body s x); [apply IH|done].
Qed.

(** When the first row whose gene identifier is not an integer comes after
    the rows [good], [populate] raises [ValueError] and leaves, not
    committed, the session that a run on [good] alone commits: the entities
    of the rows before the bad one stay in the session. *)
Theorem populate_failure_keeps_pending hgnc good bad rest s :
  Forall (λ row, is_Some (row_key row)) good →
  int (r_entrez_id bad) = Raise ValueError →
  ∃ s1,
    populate hgnc (good ++ bad :: rest) s = (s1, Some ValueError)
    ∧ committed s1 = committed s
    ∧ populate hgnc good s = (commit s1, None)
    ∧ length (evidence_table (pending s1))
      = length (evidence_table (pending s)) + length good.
Proof.
  intros F Hbad. unfold populate.
  destruct (populate_loop_ok (_build_entrez_map hgnc) good (init_state s) F) as [st E].
  assert (E' : populate_loop (_build_entrez_map hgnc) (init_state s) (good ++ bad :: rest)
               = (st, Some ValueError)).
  { unfold populate_loop in *. rewrite for_loop_app, E. cbn [for_loop].
    rewrite populate_row_raise; [done|]. by apply row_key_None. }
  rewrite E', E. exists (session st).
  destruct (populate_loop_tables _ s good [] _ _ _ _ _ _ _
              (tables_inv_init s) (rows_inv_init s) E)
    as (Ss & Ms & Ts & Is & Es & I & R).
  split_and!; try done.
  - apply I.
  - rewrite (ti_evidences _ _ _ _ _ _ _ I), length_app. f_equal.
    eapply Forall2_length, R.
Qed.

(** ** [_build_entrez_map] *)

(** An entry of the map of [_build_entrez_map] is a model of the registry
    under its own [entrez], which is not empty, and every model of the
    registry with a non-empty [entrez] has an entry under it: its own when
    no later model has the same [entrez]. A model without [entrez] gives no
    entry. *)
Theorem build_entrez_map_entries hgnc :
  (∀ k model, _build_entrez_map hgnc !! k = Some model →
     model ∈ hgnc ∧ entrez model = Some k ∧ k ≠ EmptyString)
  ∧ (∀ k model, model ∈ hgnc → entrez model = Some k → k ≠ EmptyString →
       is_Some (_build_entrez_map hgnc !! k))
  ∧ (∀ k model before after,
       hgnc = before ++ model :: after →
       entrez model = Some k → k ≠ EmptyString →
       (∀ later, later ∈ after → entrez later ≠ Some k) →
       _build_entrez_map hgnc !! k = Some model)
  ∧ (∀ k, (∀ model, model ∈ hgnc → entrez model ≠ Some k) →
       _build_entrez_map hgnc !! k = None).
Proof.
  split_and!.
  - intros k model. rewrite build_entrez_map_lookup. intros Hl.
    apply last_Some in Hl as [l Hl].
    assert (Hin : model ∈ filter (λ m, entrez m = Some k ∧ k ≠ EmptyString) hgnc).
    { rewrite Hl. apply elem_of_app. right. apply list_elem_of_here. }
    apply list_elem_of_filter in Hin as [[? ?] ?]. done.
  - intros k model Hin He Hk. rewrite build_entrez_map_lookup.
    assert (Hf : model ∈ filter (λ m, entrez m = Some k ∧ k ≠ EmptyString) hgnc)
      by (by apply list_elem_of_filter).
    destruct (filter (λ m, entrez m = Some k ∧ k ≠ EmptyString) hgnc) as [|x l] eqn:Ef;
      [by apply elem_of_nil in Hf|].
    rewrite last_is_Some. done.
  - intros k model before after -> He Hk Hlater. rewrite build_entrez_map_lookup.
    rewrite filter_app, filter_cons_True by done.
    rewrite (filter_none _ after).
    + by rewrite last_snoc.
    + apply Forall_forall. intros later Hin [? _]. by apply (Hlater later).
  - intros k Hno. rewrite build_entrez_map_lookup, filter_none; [done|].
    apply Forall_forall. intros model Hin [? _]. by apply (Hno model).
Qed.

(** ** [enrich.py]: what it adds and what it leaves *)

Section EnrichPy.

Context {C : Collaborators}.
Variable serialize_to_bel : Mirna → result NodeData.
Variable interaction_evidence : Store → Interaction → result Evidence.

Local Abbreviation py_enrich_rna := (Enrich.enrich_rna serialize_to_bel interaction_evidence).
Local Abbreviation py_add_edge :=
  (Enrich.add_interaction_edge serialize_to_bel interaction_evidence).

Lemma enrich_py_extends_refl g0 g : enrich_py_extends g0 g g.
Proof. split_and!; try done. exists [], []. by rewrite !app_nil_r. Qed.

Lemma enrich_py_extends_trans g0 g1 g2 g3 :
  enrich_py_extends g0 g1 g2 → enrich_py_extends g0 g2 g3 → enrich_py_extends g0 g1 g3.
Proof.
  intros (A1 & B1 & C1 & D1 & n1 & e1 & N1 & E1 & Fe1)
         (A2 & B2 & C2 & D2 & n2 & e2 & N2 & E2 & Fe2).
  split_and!; try congruence. exists (n1 ++ n2), (e1 ++ e2).
  rewrite N2, N1, E2, E1, !app_assoc. split_and!; try done. by apply Forall_app.
Qed.

Lemma for_each_extends {A} g0 (body : BELGraph → A → BELGraph * option exn) l :
  (∀ g x, enrich_py_extends g0 g (body g x).1) →
  ∀ g, enrich_py_extends g0 g (for_each body l g).1.
Proof.
  intros Hb. induction l as [|x l IH]; intros g; simpl; [apply enrich_py_extends_refl|].
  specialize (Hb g x). destruct (body g x) as [g1 [e|]]; [done|].
  eapply enrich_py_extends_trans; [exact Hb|apply IH].
Qed.

Lemma add_interaction_edge_extends db g0 g node data i :
  (node, data) ∈ g_nodes g0 →
  enrich_py_recognized (node, data) →
  enrich_py_extends g0 g (py_add_edge db node g i).1.
Proof.
  intros Hn Hr. unfold Enrich.add_interaction_edge.
  destruct (serialize_to_bel (mirna i)) as [u|e]; [|apply enrich_py_extends_refl].
  destruct (interaction_evidence db i) as [ev|e]; [|apply enrich_py_extends_refl].
  cbn [fst]. unfold add_qualified_edge. cbn [resolve_endpoint].
  unfold add_node_from_data.
  destruct (decide (to_tuple u ∈ (g_nodes g).*1)); split_and!; simpl; try done.
  - eexists [], [_]. rewrite app_nil_r. split_and!; try done.
    repeat constructor. by exists data.
  - eexists [_], [_]. split_and!; try done. repeat constructor. by exists data.
Qed.

Lemma with_target_extends db g0 g node data target :
  (node, data) ∈ g_nodes g0 →
  enrich_py_recognized (node, data) →
  enrich_py_extends g0 g
    (Enrich.with_target serialize_to_bel interaction_evidence db g node data target).1.
Proof.
  intros Hn Hr. unfold Enrich.with_target.
  destruct target as [[t|]|e]; try apply enrich_py_extends_refl.
  - apply for_each_extends. intros g1 i. by apply (add_interaction_edge_extends _ _ _ _ data).
  - destruct (d_name data); apply enrich_py_extends_refl.
Qed.

Lemma enrich_py_rna_extends db g0 g nd :
  nd ∈ g_nodes g0 → enrich_py_extends g0 g (py_enrich_rna db g nd).1.
Proof.
  destruct nd as [node data]. intros Hn. unfold Enrich.enrich_rna.
  case_decide as Hf; [apply enrich_py_extends_refl|].
  assert (Hfun : d_function data = RNA) by (by destruct (decide (d_function data = RNA))).
  destruct (d_namespace data) as [ns|] eqn:Hns; [|apply enrich_py_extends_refl].
  case_decide as Hh.
  { apply with_target_extends; [done|]. split; simpl; [done|]. left. by rewrite Hns, Hh. }
  case_decide as He; [|apply enrich_py_extends_refl].
  apply with_target_extends; [done|]. split; simpl; [done|]. right.
  rewrite Hns. apply elem_of_union in He as [He|He]; apply elem_of_singleton in He;
    subst; auto.
Qed.

Lemma enrich_py_rna_skips db g nd :
  ¬ enrich_py_recognized nd → py_enrich_rna db g nd = (g, None).
Proof.
  destruct nd as [node data]. intros Hr. unfold Enrich.enrich_rna.
  case_decide as Hf; [done|].
  assert (Hfun : d_function data = RNA) by (by destruct (decide (d_function data = RNA))).
  destruct (d_namespace data) as [ns|] eqn:Hns; [|done].
  case_decide as Hh.
  { destruct Hr. split; simpl; [done|]. left. by rewrite Hns, Hh. }
  case_decide as He; [|done].
  destruct Hr. split; simpl; [done|]. right.
  rewrite Hns. apply elem_of_union in He as [He|He]; apply elem_of_singleton in He;
    subst; auto.
Qed.

(** Whatever the two attributes of the models that [enrich.py] reads are:
    its [enrich_rnas] leaves, with or without an exception, a graph with the
    name, the version, the namespaces, the nodes and the edges of the graph
    it received, in their order, and after them new nodes and new edges,
    each edge with the relation [DIRECTLY_DECREASES] and ending in an RNA
    node of the received graph whose namespace is "HGNC", "EGID" or "ENTREZ"
    in capital letters; and it returns the graph as it is, without an
    exception, when the graph has no such node. *)
Theorem enrich_py_only_adds db graph :
  enrich_py_extends graph graph
    (Enrich.enrich_rnas serialize_to_bel interaction_evidence db graph).1
  ∧ (Forall (λ nd, ¬ enrich_py_recognized nd) (g_nodes graph) →
       Enrich.enrich_rnas serialize_to_bel interaction_evidence db graph
       = (graph, None)).
Proof.
  unfold Enrich.enrich_rnas. split.
  - assert (H : ∀ nodes g, (∀ nd, nd ∈ nodes → nd ∈ g_nodes graph) →
                  enrich_py_extends graph g (for_each (py_enrich_rna db) nodes g).1).
    { induction nodes as [|nd nodes IH]; intros g Hsub; simpl;
        [apply enrich_py_extends_refl|].
      pose proof (enrich_py_rna_extends db graph g nd (Hsub _ (list_elem_of_here _ _)))
        as Hb.
      destruct (py_enrich_rna db g nd) as [g1 [e|]]; [done|].
      eapply enrich_py_extends_trans; [exact Hb|].
      apply IH. intros nd' Hnd. by apply Hsub, list_elem_of_further. }
    by apply H.
  - assert (H : ∀ nodes g, Forall (λ nd, ¬ enrich_py_recognized nd) nodes →
                  for_each (py_enrich_rna db) nodes g = (g, None)).
    { induction nodes as [|nd nodes IH]; intros g Hall; simpl; [done|].
      apply Forall_cons in Hall as [Hnd Hall].
      rewrite enrich_py_rna_skips by done. by apply IH. }
    apply H.
Qed.

End EnrichPy.

(** ** [populate], then the query of a miRNA by an interaction identifier *)

Lemma filter_unique {A} (P : A → Prop) `{∀ x, Decision (P x)} (l : list A) x :
  NoDup l → x ∈ l → P x → (∀ y, y ∈ l → P y → y = x) → filter P l = [x].
Proof.
  induction l as [|z l IH]; intros ND Hx HP Hu; [by apply elem_of_nil in Hx|].
  apply NoDup_cons in ND as [Hz ND]. rewrite filter_cons.
  apply elem_of_cons in Hx as [<- |Hx].
  - rewrite decide_True by done. f_equal. apply filter_none, Forall_forall.
    intros y Hy HPy. apply Hz. by rewrite <- (Hu y (list_elem_of_further _ _ _ Hy) HPy).
  - rewrite decide_False.
    + apply IH; auto. intros y Hy. apply Hu. by apply list_elem_of_further.
    + intros HPz. apply Hz. by rewrite (Hu z (list_elem_of_here _ _) HPz).
Qed.

Lemma one_or_none_two {A} (P : A → Prop) `{∀ x, Decision (P x)} (l : list A) x y :
  x ∈ l → y ∈ l → x ≠ y → P x → P y →
  one_or_none (filter P l) = Raise MultipleResultsFound.
Proof.
  intros Hx Hy Hne HPx HPy.
  assert (Hfx : x ∈ filter P l) by (by apply list_elem_of_filter).
  assert (Hfy : y ∈ filter P l) by (by apply list_elem_of_filter).
  destruct (filter P l) as [|a [|b k]]; [by apply elem_of_nil in Hfx| |done].
  apply list_elem_of_singleton in Hfx, Hfy. congruence.
Qed.

(** After [populate] on a store without rows, the query of a miRNA by an
    interaction identifier goes by the first rows of the pairs of a miRNA
    name and a gene identifier: for the identifier of the first row of one
    pair only it finds the miRNA of this name, for an identifier of no first
    row it finds nothing (so the identifier of a later row of a pair is not
    found), and for the identifier of the first rows of two pairs it raises
    [MultipleResultsFound]. *)
Theorem populate_then_query_mirna_by_identifier hgnc df :
  Forall (λ row, is_Some (row_key row)) df →
  ∃ s',
    populate hgnc df new_session = (s', None)
    ∧ (∀ k first rest,
         rows_of k df = first :: rest →
         (∀ k' first' rest', rows_of k' df = first' :: rest' →
            r_mirtarbase_id first' = r_mirtarbase_id first → k' = k) →
         ∃ m, query_mirna_by_mirtarbase_identifier (committed s')
                (r_mirtarbase_id first) = Ok (Some m)
              ∧ mirna_name m = k.1)
    ∧ (∀ x,
         (∀ k first rest, rows_of k df = first :: rest → r_mirtarbase_id first ≠ x) →
         query_mirna_by_mirtarbase_identifier (committed s') x = Ok None)
    ∧ (∀ k k' first first' rest rest',
         k ≠ k' →
         rows_of k df = first :: rest →
         rows_of k' df = first' :: rest' →
         r_mirtarbase_id first = r_mirtarbase_id first' →
         query_mirna_by_mirtarbase_identifier (committed s') (r_mirtarbase_id first)
         = Raise MultipleResultsFound).
Proof.
  intros F. unfold populate.
  destruct (populate_loop_ok (_build_entrez_map hgnc) df (init_state new_session) F)
    as [st E].
  rewrite E.
  destruct (populate_loop_tables _ new_session df [] _ _ _ _ _ _ _
              (tables_inv_init _) (rows_inv_init _) E)
    as (Ss & Ms & Ts & Is & Es & I & R).
  destruct (populate_loop_inv _ new_session df [] _ [] [] [] _ _
              (loop_inv_init _ new_session) E)
    as (d & Ts' & Is' & Es' & L & Hd).
  rewrite Hd in L by done. simpl in L, R.
  pose proof (ti_interaction_cache _ _ _ _ _ _ _ I) as Ci.
  assert (ND : NoDup Is) by (eapply NoDup_fmap_1, cache_ok_NoDup, Ci).
  assert (F1 : ∀ i, i ∈ Is →
    ∃ first rest, rows_of (interaction_key i) df = first :: rest
                  ∧ mirtarbase_id i = r_mirtarbase_id first).
  { intros i Hi. apply (cache_ok_elem _ _ _ _ Ci) in Hi.
    destruct (inv_present _ _ _ _ _ _ _ L _ _ Hi) as (f & r & ? & _ & ? & _). eauto. }
  assert (F2 : ∀ k first rest, rows_of k df = first :: rest →
    ∃ i, i ∈ Is ∧ interaction_key i = k ∧ mirtarbase_id i = r_mirtarbase_id first).
  { intros k first rest Hk.
    destruct (interaction_set st !! k) as [i|] eqn:Li.
    - destruct (cache_ok_lookup _ _ _ _ _ Ci Li) as [Hi Hkey]. exists i.
      split_and!; try done.
      destruct (inv_present _ _ _ _ _ _ _ L _ _ Li) as (f & r & Hf & _ & ? & _).
      congruence.
    - destruct (inv_absent _ _ _ _ _ _ _ L _ Li) as [Hnil _]. congruence. }
  eexists. split; [reflexivity|].
  unfold query_mirna_by_mirtarbase_identifier, commit, store_app. simpl.
  rewrite (ti_interactions _ _ _ _ _ _ _ I), (ti_committed _ _ _ _ _ _ _ I). simpl.
  split_and!.
  - intros k first rest Hk Huniq. destruct (F2 _ _ _ Hk) as (i & Hi & Hkey & Hid).
    exists (mirna i). rewrite (filter_unique _ Is i); try done.
    + split; [done|]. by rewrite <- Hkey.
    + intros y Hy Hyid. destruct (F1 y Hy) as (fy & ry & Hfy & Hyid').
      apply (NoDup_fmap_inj_on interaction_key Is); try done.
      * eapply cache_ok_NoDup, Ci.
      * rewrite Hkey. eapply Huniq; [exact Hfy|]. congruence.
  - intros x Hx. rewrite filter_none; [done|]. apply Forall_forall.
    intros y Hy Hyid. destruct (F1 y Hy) as (fy & ry & Hfy & Hyid').
    apply (Hx _ _ _ Hfy). congruence.
  - intros k k' first first' rest rest' Hne Hk Hk' Hid.
    destruct (F2 _ _ _ Hk) as (i & Hi & Hkey & Hiid).
    destruct (F2 _ _ _ Hk') as (i' & Hi' & Hkey' & Hiid').
    rewrite (one_or_none_two _ Is i i'); try done; congruence.
Qed.

(** ** The further theorems on the example *)

(** The three rows of the example. *)
Lemma populate_unique_names_witness :
  let hgnc := Example.hgnc in
  let df := Example.df in
  let s := Example.empty_session in
  Forall (λ row, is_Some (row_key row)) df
  ∧ ∃ s' Ss Ms Ts,
      populate hgnc df s = (s', None)
      ∧ species_table (committed s')
        = species_table (committed s) ++ species_table (pending s) ++ Ss
      ∧ mirna_table (committed s')
        = mirna_table (committed s) ++ mirna_table (pending s) ++ Ms
      ∧ target_table (committed s')
        = target_table (committed s) ++ target_table (pending s) ++ Ts
      ∧ NoDup (species_name <$> Ss)
      ∧ NoDup (mirna_name <$> Ms)
      ∧ NoDup (entrez_id <$> Ts).
Proof.
  cbv zeta.
  assert (H : Forall (λ row, is_Some (row_key row)) Example.df)
    by (repeat constructor; by eexists).
  split; [exact H|]. exact (populate_unique_names _ _ _ H).
Defined.

Lemma populate_references_witness :
  let hgnc := Example.hgnc in
  let df := Example.df in
  let s := Example.empty_session in
  Forall (λ row, is_Some (row_key row)) df
  ∧ ∃ s' Ss Ms Ts Is Es,
      populate hgnc df s = (s', None)
      ∧ committed s'
        = store_app (committed s)
            (store_app (pending s)
               {| species_table := Ss; mirna_table := Ms; target_table := Ts;
                  interaction_table := Is; evidence_table := Es |})
      ∧ pending s' = empty_store
      ∧ (∀ ev, ev ∈ Es → interaction ev ∈ Is)
      ∧ (∀ i, i ∈ Is → mirna i ∈ Ms ∧ target i ∈ Ts)
      ∧ (∀ m, m ∈ Ms → mirna_species m ∈ Ss)
      ∧ (∀ t, t ∈ Ts → target_species t ∈ Ss).
Proof.
  cbv zeta.
  assert (H : Forall (λ row, is_Some (row_key row)) Example.df)
    by (repeat constructor; by eexists).
  split; [exact H|]. exact (populate_references _ _ _ H).
Defined.

Lemma populate_first_row_wins_witness :
  let hgnc := Example.hgnc in
  let df := Example.df in
  let s := Example.empty_session in
  Forall (λ row, is_Some (row_key row)) df
  ∧ ∃ s' Ms Ts,
      populate hgnc df s = (s', None)
      ∧ mirna_table (committed s')
        = mirna_table (committed s) ++ mirna_table (pending s) ++ Ms
      ∧ target_table (committed s')
        = target_table (committed s) ++ target_table (pending s) ++ Ts
      ∧ (∀ t, t ∈ Ts →
           ∃ first rest,
             filter (λ r, row_gene r = Some (entrez_id t)) df = first :: rest
             ∧ target_name t = r_gene_name first
             ∧ species_name (target_species t) = r_target_species first)
      ∧ (∀ m, m ∈ Ms →
           ∃ first rest,
             filter (λ r, r_mirna_name r = mirna_name m ∧ is_Some (row_key r)) df
             = first :: rest
             ∧ species_name (mirna_species m) = r_mirna_species first).
Proof.
  cbv zeta.
  assert (H : Forall (λ row, is_Some (row_key row)) Example.df)
    by (repeat constructor; by eexists).
  split; [exact H|]. exact (populate_first_row_wins _ _ _ H).
Defined.

Lemma populate_evidence_per_row_witness :
  let hgnc := Example.hgnc in
  let df := Example.df in
  let s := Example.empty_session in
  Forall (λ row, is_Some (row_key row)) df
  ∧ ∃ s' Is Es,
      populate hgnc df s = (s', None)
      ∧ interaction_table (committed s')
        = interaction_table (committed s) ++ interaction_table (pending s) ++ Is
      ∧ evidence_table (committed s')
        = evidence_table (committed s) ++ evidence_table (pending s) ++ Es
      ∧ Forall2 (λ ev row,
                   experiment ev = r_exp row
                   ∧ support ev = r_sup_type row
                   ∧ reference ev = r_pubmed row
                   ∧ interaction ev ∈ Is
                   ∧ row_key row = Some (mirna_name (mirna (interaction ev)),
                                         entrez_id (target (interaction ev))))
          Es df.
Proof.
  cbv zeta.
  assert (H : Forall (λ row, is_Some (row_key row)) Example.df)
    by (repeat constructor; by eexists).
  split; [exact H|]. exact (populate_evidence_per_row _ _ _ H).
Defined.

Lemma populate_then_query_witness :
  let hgnc := Example.hgnc in
  let df := Example.df in
  Forall (λ row, is_Some (row_key row)) df
  ∧ ∃ s',
      populate hgnc df new_session = (s', None)
      ∧ (∀ row name gene, row ∈ df → row_key row = Some (name, gene) →
           ∃ t m,
             query_target_by_entrez_id (committed s') gene = Ok (Some t)
             ∧ entrez_id t = gene
             ∧ query_mirna_by_mirtarbase_name (committed s') name = Ok (Some m)
             ∧ mirna_name m = name)
      ∧ (∀ gene, Some gene ∉ row_gene <$> df →
           query_target_by_entrez_id (committed s') gene = Ok None)
      ∧ (∀ name, name ∉ r_mirna_name <$> df →
           query_mirna_by_mirtarbase_name (committed s') name = Ok None).
Proof.
  cbv zeta.
  assert (H : Forall (λ row, is_Some (row_key row)) Example.df)
    by (repeat constructor; by eexists).
  split; [exact H|]. exact (populate_then_query _ _ H).
Defined.

Lemma populate_then_summarize_witness :
  let hgnc := Example.hgnc in
  let df := Example.df in
  Forall (λ row, is_Some (row_key row)) df
  ∧ ∃ s',
      populate hgnc df new_session = (s', None)
      ∧ sum_evidences (summarize (committed s')) = length df
      ∧ sum_interactions (summarize (committed s'))
        = length (remove_dups (omap row_key df))
      ∧ sum_mirnas (summarize (committed s'))
        = length (remove_dups (r_mirna_name <$> df))
      ∧ sum_targets (summarize (committed s'))
        = length (remove_dups (omap row_gene df))
      ∧ (is_populated (committed s') = true ↔ df ≠ []).
Proof.
  cbv zeta.
  assert (H : Forall (λ row, is_Some (row_key row)) Example.df)
    by (repeat constructor; by eexists).
  split; [exact H|]. exact (populate_then_summarize _ _ H).
Defined.

(** The node of the gene of the example, by its Entrez identifier. *)
Lemma populate_then_enrich_rna_witness :
  let C := Example.collaborators in
  let hgnc := Example.hgnc in
  let df := Example.df in
  let data := Example.rna "EGID" None (Some "7852") in
  let node := to_tuple data in
  let g := Example.graph_of [data] in
  let gene := "7852" in
  ∃ g' new,
    enrich_rna (committed (populate hgnc df new_session).1) g (node, data) = Ok g'
    ∧ g_edges g' = g_edges g ++ new
    ∧ new ≡ₚ (λ ev, mti_edge node (interaction ev) ev)
             <$> filter (λ ev, entrez_id (target (interaction ev)) = gene)
                   (evidence_table (committed (populate hgnc df new_session).1))
    ∧ length new = length (filter (λ row, row_gene row = Some gene) df).
Proof.
  cbv zeta.
  apply (populate_then_enrich_rna (C := Example.collaborators) Example.hgnc Example.df
           _ _ (Example.rna "EGID" None (Some "7852")) "EGID" "7852").
  - repeat constructor; by eexists.
  - reflexivity.
  - reflexivity.
  - by vm_compute.
  - apply (bool_decide_unpack _). by vm_compute.
  - left. reflexivity.
Defined.

(** The rows of the example whose second gene identifier is NaN. *)
Lemma populate_failure_keeps_pending_witness :
  let hgnc := Example.hgnc in
  let good := [Example.row 0 "MIRT000005" "mmu-miR-124-3p" (Num 7852) "Reporter assay"
                 18619591] in
  let bad := Example.row 1 "MIRT000006" "mmu-miR-124-3p" NaN "Western blot" 18619592 in
  let rest : list Row := [] in
  let s := Example.empty_session in
  Forall (λ row, is_Some (row_key row)) good
  ∧ int (r_entrez_id bad) = Raise ValueError
  ∧ ∃ s1,
      populate hgnc (good ++ bad :: rest) s = (s1, Some ValueError)
      ∧ committed s1 = committed s
      ∧ populate hgnc good s = (commit s1, None)
      ∧ length (evidence_table (pending s1))
        = length (evidence_table (pending s)) + length good.
Proof.
  cbv zeta.
  assert (H : Forall (λ row, is_Some (row_key row))
                [Example.row 0 "MIRT000005" "mmu-miR-124-3p" (Num 7852) "Reporter assay"
                   18619591])
    by (repeat constructor; by eexists).
  split; [exact H|]. split; [reflexivity|].
  exact (populate_failure_keeps_pending Example.hgnc _
           (Example.row 1 "MIRT000006" "mmu-miR-124-3p" NaN "Western blot" 18619592)
           [] Example.empty_session H eq_refl).
Defined.

Lemma populate_then_query_mirna_by_identifier_witness :
  let hgnc := Example.hgnc in
  let df := Example.df in
  Forall (λ row, is_Some (row_key row)) df
  ∧ ∃ s',
      populate hgnc df new_session = (s', None)
      ∧ (∀ k first rest,
           rows_of k df = first :: rest →
           (∀ k' first' rest', rows_of k' df = first' :: rest' →
              r_mirtarbase_id first' = r_mirtarbase_id first → k' = k) →
           ∃ m, query_mirna_by_mirtarbase_identifier (committed s')
                  (r_mirtarbase_id first) = Ok (Some m)
                ∧ mirna_name m = k.1)
      ∧ (∀ x,
           (∀ k first rest, rows_of k df = first :: rest → r_mirtarbase_id first ≠ x) →
           query_mirna_by_mirtarbase_identifier (committed s') x = Ok None)
      ∧ (∀ k k' first first' rest rest',
           k ≠ k' →
           rows_of k df = first :: rest →
           rows_of k' df = first' :: rest' →
           r_mirtarbase_id first = r_mirtarbase_id first' →
           query_mirna_by_mirtarbase_identifier (committed s') (r_mirtarbase_id first)
           = Raise MultipleResultsFound).
Proof.
  cbv zeta.
  assert (H : Forall (λ row, is_Some (row_key row)) Example.df)
    by (repeat constructor; by eexists).
  split; [exact H|]. exact (populate_then_query_mirna_by_identifier _ _ H).
Defined.
